(** * psy-helper-bot: a shallow embedding of [bot.py]

    The bot relays Telegram text messages to a chat-completion service,
    keeps a per-user transcript in a module-level dictionary and answers
    a fixed list of crisis phrases with a fixed text, without calling the
    service.  This file embeds the functions of [bot.py] and proves the
    properties of the history store, the crisis filter, the completion
    wrapper and the message handlers. *)

From Stdlib Require Import NArith ZArith List Bool Ascii String Lia.
From stdpp Require Import gmap list strings.

Local Open Scope N_scope.

(** ** Python strings

    A Python [str] is a sequence of Unicode code points.  Literals of the
    source are written as UTF-8 text and decoded to code points. *)

Definition pystr : Type := list N.

Fixpoint bytes_of_string (s : string) : list N :=
  match s with
  | EmptyString => []
  | String a s' => N_of_ascii a :: bytes_of_string s'
  end.

(** UTF-8 decoding of a byte sequence (1 to 4 byte forms; a truncated
    trailing sequence is dropped, which no literal of the source has). *)
Fixpoint utf8_decode (bs : list N) : list N :=
  match bs with
  | [] => []
  | b0 :: r0 =>
      if b0 <? 128 then b0 :: utf8_decode r0
      else if b0 <? 224 then
        match r0 with
        | b1 :: r1 => ((b0 mod 32) * 64 + b1 mod 64) :: utf8_decode r1
        | _ => []
        end
      else if b0 <? 240 then
        match r0 with
        | b1 :: b2 :: r2 =>
            ((b0 mod 16) * 4096 + (b1 mod 64) * 64 + b2 mod 64)
              :: utf8_decode r2
        | _ => []
        end
      else
        match r0 with
        | b1 :: b2 :: b3 :: r3 =>
            ((b0 mod 8) * 262144 + (b1 mod 64) * 4096
             + (b2 mod 64) * 64 + b3 mod 64) :: utf8_decode r3
        | _ => []
        end
  end.

Definition lit (s : string) : pystr := utf8_decode (bytes_of_string s).

(** [str.isspace] for one code point: the code points CPython treats as
    whitespace, which are the ones [str.strip()] removes. *)
Definition isspace (c : N) : bool :=
  ((9 <=? c) && (c <=? 13)) || ((28 <=? c) && (c <=? 32))
  || (c =? 133) || (c =? 160) || (c =? 5760)
  || ((8192 <=? c) && (c <=? 8202))
  || (c =? 8232) || (c =? 8233) || (c =? 8239) || (c =? 8287)
  || (c =? 12288).

Fixpoint lstrip (s : pystr) : pystr :=
  match s with
  | [] => []
  | c :: s' => if isspace c then lstrip s' else s
  end.

Definition rstrip (s : pystr) : pystr := rev (lstrip (rev s)).

(** [s.strip()] *)
Definition strip (s : pystr) : pystr := rstrip (lstrip s).

(** [p] is a prefix of [s] *)
Fixpoint startswith (s p : pystr) : bool :=
  match p, s with
  | [], _ => true
  | _ :: _, [] => false
  | a :: p', b :: s' => (a =? b) && startswith s' p'
  end.

(** [kw in t] on strings: [kw] occurs in [t] as a contiguous run. *)
Fixpoint str_contains (kw t : pystr) : bool :=
  startswith t kw ||
  match t with
  | [] => false
  | _ :: t' => str_contains kw t'
  end.

(** ** The crisis filter *)

Definition crisis_keywords : list pystr :=
  Eval vm_compute in
  [ lit "убить себя";
    lit "суицид";
    lit "покончить с собой";
    lit "не хочу жить";
    lit "хочу умереть";
    lit "резать вены";
    lit "самоубий";
    lit "себя убью";
    lit "нет смысла жить";
    lit "бессмысленно жить" ].

Section Filter.

(** [str.lower] is a built-in of the interpreter: it is taken as a
    parameter, and the one fact the filter needs about it is stated
    where it is used. *)
Variable lower : pystr -> pystr.

(** [is_crisis_message(text)]; [None] stands for a null argument. *)
Definition is_crisis_message (text : option pystr) : bool :=
  match text with
  | None => false
  | Some [] => false
  | Some s =>
      let t := lower s in
      existsb (fun kw => str_contains kw t) crisis_keywords
  end.

End Filter.

Local Close Scope N_scope.

(** ** Data model *)

Inductive Role : Type := RoleSystem | RoleUser | RoleAssistant.

(** One message of a transcript: the dictionary with the keys ["role"]
    and ["content"]. *)
Record Entry : Type := mkEntry { role : Role; content : pystr }.

#[global] Instance Role_eq_dec : EqDecision Role.
Proof. solve_decision. Defined.

#[global] Instance Entry_eq_dec : EqDecision Entry.
Proof. solve_decision. Defined.

(** The system message [get_history] seeds a new history with. *)
Definition SYSTEM_PROMPT : pystr :=
  Eval vm_compute in
  lit "Ты эмпатичный, тактичный психолог-консультант.
- Отвечай по-русски.
- Твоя цель — поддержать, помочь человеку разобраться в чувствах и ситуации.
- Задавай уточняющие вопросы, помогай видеть разные варианты, предлагай мягкие шаги.
- Не ставь психиатрических диагнозов и не обсуждай лекарства.
- Если человек винит себя, помоги снизить самокритику и увидеть контекст.
- Отвечай обычно 3–6 предложениями, без огромных полотен.
- Будь тёплым, но уважительным, без сюсюканья.
".

Definition SYSTEM_ENTRY : Entry :=
  {| role := RoleSystem; content := SYSTEM_PROMPT |}.

(** The text of [crisis_reply]. *)
Definition CRISIS_TEXT : pystr :=
  Eval vm_compute in
  lit "Я слышу, что тебе сейчас очень тяжело, и мысли, о которых ты пишешь, говорят о сильной боли 💔

Я как бот не могу полноценно помочь в такой ситуации, но очень важно, чтобы рядом оказался живой человек, который сможет это сделать.

Пожалуйста, обратись за помощью:
• к близкому человеку, которому ты более-менее доверяешь;
• к психологу или психотерапевту (очно или онлайн);
• в местную службу экстренной помощи или на номер экстренных служб (например, 112).

Ты правда заслуживаешь поддержки. Твои чувства — не слабость и не блаш. Если можешь, напиши сейчас кому-то из живых людей или позвони в экстренную службу.".

(** The text [call_openai_chat] returns from its [except] branch. *)
Definition FALLBACK_TEXT : pystr :=
  Eval vm_compute in
  lit "Я сейчас не могу обратиться к своей нейросети 😔
Попробуй, пожалуйста, написать позже.".

Definition START_TEXT : pystr :=
  Eval vm_compute in
  lit "Привет! 👋 Я бот, который помогает разбираться в мыслях и чувствах.

Можешь написать, что у тебя происходит: что тревожит, злит, расстраивает или просто не даёт покоя. Я постараюсь мягко поддержать, задать вопросы и помочь посмотреть на ситуацию под другим углом.

Важно:
• Я не врач и не ставлю диагнозов.
• В тяжёлых состояниях лучше обязательно обращаться к живому специалисту.

Если хочешь начать заново, можно написать /reset.".

Definition HELP_TEXT : pystr :=
  Eval vm_compute in
  lit "Я здесь, чтобы выслушать и поддержать тебя.

Просто напиши своими словами, что у тебя на душе — мысли, переживания, конфликт, усталость, тревога.

Команды:
/start — информация обо мне
/reset — очистить контекст диалога и начать с чистого листа".

Definition RESET_TEXT : pystr :=
  Eval vm_compute in
  lit "Я очистил историю нашего диалога ✅
Можем начать сначала. Расскажи, что сейчас для тебя самое важное.".

(** ** The outside world

    Exceptions, the calls that leave the process, and what the
    transport and the completion service answer to them. *)

Inductive TelegramError : Type := NetworkError | TimedOut | Forbidden | BadRequest.

Inductive OpenAIError : Type :=
  | APIConnectionError | APITimeoutError | AuthenticationError
  | RateLimitError | APIStatusError (status : Z).

Inductive Exn : Type :=
  | ExTelegram (e : TelegramError)
  | ExOpenAI (e : OpenAIError)
  | ExIndexError
  | ExAttributeError.

(** The keyword arguments of [client.chat.completions.create]; the
    temperature is kept as a decimal fraction (numerator, denominator). *)
Record CompletionRequest : Type := mkRequest {
  model : pystr;
  messages : list Entry;
  max_tokens : Z;
  temperature : Z * Z
}.

(** What the service answers: an exception, or a completion, of which the
    code reads [choices[i].message.content] (which may be null). *)
Inductive ApiResult : Type :=
  | ApiRaises (e : OpenAIError)
  | ApiCompletion (choices : list (option pystr)).

Inductive ChatAction : Type := TYPING.

Inductive LogArg : Type := ArgInt (z : Z) | ArgStr (s : pystr) | ArgNone.

(** Observable effects, in the order the code performs them. *)
Inductive Event : Type :=
  | EvLogInfo (fmt : pystr) (args : list LogArg)
  | EvLogException (msg : pystr) (e : Exn)
  | EvSendAction (chat : Z) (action : ChatAction)
  | EvReplyText (chat : Z) (text : pystr)
  | EvCreate (req : CompletionRequest).

(** The answers of the transport and of the completion service during
    one handler run; [None] is a call that returns normally. *)
Record Env : Type := mkEnv {
  send_action_outcome : Z -> ChatAction -> option TelegramError;
  reply_text_outcome : Z -> pystr -> option TelegramError;
  create_outcome : CompletionRequest -> ApiResult
}.

Record User : Type := mkUser { uid : Z; username : option pystr }.

Record Message : Type := mkMessage { chat_id : Z; text : option pystr }.

Record Update : Type := mkUpdate {
  message : option Message;
  effective_user : option User;
  effective_chat : option Z
}.

(** Process state: the module-level dictionary [user_histories] and the
    effects performed so far. *)
Record World : Type := mkWorld {
  user_histories : gmap Z (list Entry);
  trace : list Event
}.

Definition initial_world : World :=
  {| user_histories := ∅; trace := [] |}.

(** ** A state and exception monad for the handlers *)

Inductive Outcome (A : Type) : Type :=
  | Returned (a : A)
  | Raised (e : Exn).
Arguments Returned {A} a.
Arguments Raised {A} e.

Definition M (A : Type) : Type := World -> Outcome A * World.

Definition ret {A : Type} (a : A) : M A := fun w => (Returned a, w).

Definition bind {A B : Type} (m : M A) (k : A -> M B) : M B :=
  fun w =>
    match m w with
    | (Returned a, w') => k a w'
    | (Raised e, w') => (Raised e, w')
    end.

Definition raise {A : Type} (e : Exn) : M A := fun w => (Raised e, w).

(** [try: body except Exception as e: handler]: what the body did to the
    state before it raised stays done. *)
Definition try_except {A : Type} (body : M A) (handler : Exn -> M A) : M A :=
  fun w =>
    match body w with
    | (Returned a, w') => (Returned a, w')
    | (Raised e, w') => handler e w'
    end.

Notation "'let!' x ':=' m 'in' k" := (bind m (fun x => k))
  (at level 10, x name, m at level 100, k at level 200).

Notation "m '>>' k" := (bind m (fun _ => k))
  (at level 90, right associativity).

Definition emit (ev : Event) : M unit :=
  fun w =>
    (Returned tt,
     {| user_histories := user_histories w; trace := trace w ++ [ev] |}).

Definition read_histories : M (gmap Z (list Entry)) :=
  fun w => (Returned (user_histories w), w).

Definition write_histories (hs : gmap Z (list Entry)) : M unit :=
  fun w => (Returned tt, {| user_histories := hs; trace := trace w |}).

(** [x.attr] on an optional object: [AttributeError] on [None]. *)
Definition attr {A : Type} (o : option A) : M A :=
  match o with
  | Some a => ret a
  | None => raise ExAttributeError
  end.

(** [l[0]] *)
Definition index0 {A : Type} (l : list A) : M A :=
  match l with
  | a :: _ => ret a
  | [] => raise ExIndexError
  end.

(** [l[-n:]]: the last [n] elements, the whole list when it is shorter. *)
Definition slice_last {A : Type} (n : nat) (l : list A) : list A :=
  drop (length l - n) l.

(** ** The history store *)

(** [get_history(user_id)] *)
Definition get_history (user_id : Z) : M (list Entry) :=
  let! hs := read_histories in
  match hs !! user_id with
  | Some history => ret history
  | None =>
      write_histories (<[user_id := [SYSTEM_ENTRY]]> hs) >>
      ret [SYSTEM_ENTRY]
  end.

(** [reset_history(user_id)] *)
Definition reset_history (user_id : Z) : M unit :=
  let! hs := read_histories in
  match hs !! user_id with
  | Some _ => write_histories (delete user_id hs)
  | None => ret tt
  end.

(** [history.append(e)], where [history] is the list object stored under
    [user_id]: the list is changed in place, so the dictionary entry
    changes with it.  The result is the new content of that object. *)
Definition history_append (user_id : Z) (history : list Entry) (e : Entry)
  : M (list Entry) :=
  let history' := history ++ [e] in
  let! hs := read_histories in
  write_histories (<[user_id := history']> hs) >>
  ret history'.

(** ** Calls that leave the process *)

Definition send_action (env : Env) (chat : Z) (action : ChatAction) : M unit :=
  emit (EvSendAction chat action) >>
  match send_action_outcome env chat action with
  | None => ret tt
  | Some e => raise (ExTelegram e)
  end.

Definition reply_text (env : Env) (msg : Message) (t : pystr) : M unit :=
  emit (EvReplyText (chat_id msg) t) >>
  match reply_text_outcome env (chat_id msg) t with
  | None => ret tt
  | Some e => raise (ExTelegram e)
  end.

Definition chat_completions_create (env : Env) (req : CompletionRequest)
  : M (list (option pystr)) :=
  emit (EvCreate req) >>
  match create_outcome env req with
  | ApiRaises e => raise (ExOpenAI e)
  | ApiCompletion choices => ret choices
  end.

Definition MODEL_ID : pystr := Eval vm_compute in lit "gpt-4o-mini".

Definition OPENAI_ERROR_MSG : pystr :=
  Eval vm_compute in lit "Ошибка при обращении к OpenAI".

(** ** The completion wrapper *)

(** The keyword arguments [call_openai_chat] passes to the service. *)
Definition completion_request (history : list Entry) : CompletionRequest :=
  {| model := MODEL_ID; messages := history;
     max_tokens := 400; temperature := (7, 10)%Z |}.

(** [call_openai_chat(user_id, user_message)].  The function has no
    [await] between reading the history and returning, so no other
    handler runs in between. *)
Definition call_openai_chat (env : Env) (user_id : Z) (user_message : pystr)
  : M pystr :=
  let! history := get_history user_id in
  let! history :=
    history_append user_id history
      {| role := RoleUser; content := user_message |} in
  try_except
    (let! choices :=
       chat_completions_create env (completion_request history) in
     let! choice := index0 choices in
     let! c := attr choice in
     let reply := strip c in
     let! history :=
       history_append user_id history
         {| role := RoleAssistant; content := reply |} in
     (if 30 <? length history then
        let! system_msg := index0 history in
        let last_msgs := slice_last 28 history in
        let! hs := read_histories in
        write_histories (<[user_id := system_msg :: last_msgs]> hs)
      else ret tt) >>
     ret reply)
    (fun e =>
       emit (EvLogException OPENAI_ERROR_MSG e) >>
       ret FALLBACK_TEXT).

(** ** Telegram handlers *)

Definition START_LOG_FMT : pystr :=
  Eval vm_compute in lit "Пользователь %s (%s) вызвал /start".

Definition MESSAGE_LOG_FMT : pystr :=
  Eval vm_compute in lit "Сообщение от %s: %s".

Definition log_arg_of_opt (o : option pystr) : LogArg :=
  match o with
  | Some s => ArgStr s
  | None => ArgNone
  end.

(** [if update.message: await update.message.reply_text(t)] *)
Definition reply_if_message (env : Env) (update : Update) (t : pystr) : M unit :=
  match message update with
  | Some msg => reply_text env msg t
  | None => ret tt
  end.

Definition crisis_reply (env : Env) (update : Update) : M unit :=
  reply_if_message env update CRISIS_TEXT.

Definition start (env : Env) (update : Update) : M unit :=
  let! user := attr (effective_user update) in
  emit (EvLogInfo START_LOG_FMT
          [ArgInt (uid user); log_arg_of_opt (username user)]) >>
  reply_if_message env update START_TEXT.

Definition help_command (env : Env) (update : Update) : M unit :=
  reply_if_message env update HELP_TEXT.

Definition reset_command (env : Env) (update : Update) : M unit :=
  let! user := attr (effective_user update) in
  let user_id := uid user in
  reset_history user_id >>
  reply_if_message env update RESET_TEXT.

(** The four handlers [main] registers. *)
Inductive Intent : Type := IStart | IHelp | IReset | IText.

Section Handlers.

Variable lower : pystr -> pystr.

Definition handle_message (env : Env) (update : Update) : M unit :=
  match message update with
  | None => ret tt
  | Some msg =>
      match text msg with
      | None => ret tt
      | Some [] => ret tt
      | Some txt =>
          let! user := attr (effective_user update) in
          let user_id := uid user in
          let user_text := strip txt in
          emit (EvLogInfo MESSAGE_LOG_FMT
                  [ArgInt user_id; ArgStr user_text]) >>
          let! chat := attr (effective_chat update) in
          send_action env chat TYPING >>
          if is_crisis_message lower (Some user_text) then
            crisis_reply env update
          else
            let! reply := call_openai_chat env user_id user_text in
            reply_text env msg reply
      end
  end.

Definition dispatch (i : Intent) (env : Env) (update : Update) : M unit :=
  match i with
  | IStart => start env update
  | IHelp => help_command env update
  | IReset => reset_command env update
  | IText => handle_message env update
  end.

(** One inbound update, with the answers of the outside world while it
    is handled.  An exception that leaves a handler ends that handler;
    the state it reached stays. *)
Definition step (w : World) (x : Intent * Env * Update) : World :=
  let '(i, env, update) := x in snd (dispatch i env update w).

Definition run (xs : list (Intent * Env * Update)) (w : World) : World :=
  fold_left step xs w.

End Handlers.

(** ** Concrete instances, for running the model *)

Local Open Scope N_scope.

(** Lower case of one code point of the Basic Latin, Latin-1 and
    Cyrillic blocks; other code points are left as they are. *)
Definition lower_cp (c : N) : N :=
  if (65 <=? c) && (c <=? 90) then c + 32
  else if (192 <=? c) && (c <=? 222) && negb (c =? 215) then c + 32
  else if (1040 <=? c) && (c <=? 1071) then c + 32
  else if (1024 <=? c) && (c <=? 1039) then c + 80
  else c.

(** An instance of [str.lower] for texts of those blocks. *)
Definition lower_basic (s : pystr) : pystr := map lower_cp s.

(** Lower case inside the Russian alphabet: the capital letters
    U+0410..U+042F go to U+0430..U+044F. *)
Definition cyr_lower (c : N) : N :=
  if (1040 <=? c) && (c <=? 1071) then c + 32 else c.

(** A space or a letter of U+0410..U+044F. *)
Definition cyr_or_space (c : N) : bool :=
  (c =? 32) || ((1040 <=? c) && (c <=? 1103)).

Local Close Scope N_scope.

(** Every call to the outside succeeds and the service answers [raw]. *)
Definition env_ok (raw : pystr) : Env :=
  {| send_action_outcome := fun _ _ => None;
     reply_text_outcome := fun _ _ => None;
     create_outcome := fun _ => ApiCompletion [Some raw] |}.

(** The transport works and the completion service raises [e]. *)
Definition env_api_fails (e : OpenAIError) : Env :=
  {| send_action_outcome := fun _ _ => None;
     reply_text_outcome := fun _ _ => None;
     create_outcome := fun _ => ApiRaises e |}.

(** The typing indicator cannot be sent. *)
Definition env_typing_fails (e : TelegramError) : Env :=
  {| send_action_outcome := fun _ _ => Some e;
     reply_text_outcome := fun _ _ => None;
     create_outcome := fun _ => ApiCompletion [] |}.

(** A private chat: the chat id is the user id. *)
Definition text_update (user_id : Z) (t : pystr) : Update :=
  {| message := Some {| chat_id := user_id; text := Some t |};
     effective_user := Some {| uid := user_id; username := None |};
     effective_chat := Some user_id |}.

(** ** Notions used in the statements *)

(** The list [get_history] returns for [u]: the stored one, or the fresh
    one it creates. *)
Definition history_of (hs : gmap Z (list Entry)) (u : Z) : list Entry :=
  default [SYSTEM_ENTRY] (hs !! u).

(** What lines 124 to 130 read out of the answer of the service: the
    text of the first choice, or the exception the [try] block raises. *)
Definition api_text (r : ApiResult) : Exn + pystr :=
  match r with
  | ApiRaises e => inl (ExOpenAI e)
  | ApiCompletion [] => inl ExIndexError
  | ApiCompletion (None :: _) => inl ExAttributeError
  | ApiCompletion (Some c :: _) => inr c
  end.

(** The size limit of lines 134 to 137 applied to a list. *)
Definition cap (h : list Entry) : list Entry :=
  if 30 <? length h then
    match h with
    | a :: _ => a :: slice_last 28 h
    | [] => []
    end
  else h.

Definition user_entry (t : pystr) : Entry :=
  {| role := RoleUser; content := t |}.

Definition assistant_entry (t : pystr) : Entry :=
  {| role := RoleAssistant; content := t |}.

Definition is_create (ev : Event) : bool :=
  match ev with EvCreate _ => true | _ => false end.

(** Calls that go over the network and may raise. *)
Definition is_network_call (ev : Event) : bool :=
  match ev with
  | EvSendAction _ _ | EvReplyText _ _ | EvCreate _ => true
  | _ => false
  end.

(** A well-formed transcript: the system entry first, and no other
    system entry after it. *)
Definition transcript_ok (h : list Entry) : Prop :=
  exists t, h = SYSTEM_ENTRY :: t /\ Forall (fun e => role e <> RoleSystem) t.

Definition store_inv (hs : gmap Z (list Entry)) : Prop :=
  forall u h, hs !! u = Some h -> transcript_ok h.

(** No leading and no trailing whitespace. *)
Definition stripped (s : pystr) : Prop :=
  (forall c s', s = c :: s' -> isspace c = false) /\
  (forall c s', s = s' ++ [c] -> isspace c = false).

(** An exchange that succeeds: user text, raw answer of the service, and
    an outside world in which the typing indicator is sent and the
    service returns that answer as its first choice. *)
Definition Exchange : Type := pystr * pystr * Env.

Definition exchange_step (u : Z) (x : Exchange) : Intent * Env * Update :=
  let '(t, _, env) := x in (IText, env, text_update u t).

Definition exchange_ok (lower : pystr -> pystr) (x : Exchange) : Prop :=
  let '(t, raw, env) := x in
  t <> [] /\
  is_crisis_message lower (Some (strip t)) = false /\
  (forall chat a, send_action_outcome env chat a = None) /\
  (forall req, exists rest,
      create_outcome env req = ApiCompletion (Some raw :: rest)).

(** The messages of a list of exchanges, oldest first. *)
Definition conversation (xs : list Exchange) : list Entry :=
  flat_map (fun x : Exchange =>
              let '(t, raw, _) := x in
              [user_entry (strip t); assistant_entry (strip raw)]) xs.

(** The one property of [str.lower] the filter relies on: a run of
    Russian letters and spaces is lowered letter by letter, in place,
    whatever precedes and follows it. *)
Definition lowers_cyrillic_runs (lower : pystr -> pystr) : Prop :=
  forall pre w post,
    forallb cyr_or_space w = true ->
    exists pre' post', lower (pre ++ w ++ post) = pre' ++ map cyr_lower w ++ post'.

(** The reading of the ordering claim on the effects of one handler run:
    for a crisis text the crisis reply is made, and no call over the
    network is made before it. *)
Definition crisis_branch_before_network
    (lower : pystr -> pystr) (env : Env) (update : Update) (w : World) : Prop :=
  forall msg txt,
    message update = Some msg -> text msg = Some txt ->
    is_crisis_message lower (Some (strip txt)) = true ->
    exists pre post,
      trace (snd (handle_message lower env update w))
      = trace w ++ pre ++ EvReplyText (chat_id msg) CRISIS_TEXT :: post
      /\ existsb is_network_call pre = false.

(** The state once [handle_message] has logged the text and made the
    typing indicator call. *)
Definition after_typing (user : User) (chat : Z) (txt : pystr) (w : World)
  : World :=
  {| user_histories := user_histories w;
     trace := trace w ++
              [EvLogInfo MESSAGE_LOG_FMT [ArgInt (uid user); ArgStr (strip txt)];
               EvSendAction chat TYPING] |}.

(** A computation keeps a relation between the states before and after
    it. *)
Definition keeps {A : Type} (R : World -> World -> Prop) (m : M A) : Prop :=
  forall w, R w (snd (m w)).

(** The transcripts of [u'] before and after are the same. *)
Definition same_at (u' : Z) (w w' : World) : Prop :=
  user_histories w' !! u' = user_histories w !! u'.

(** The store invariant is carried from the state before to the state
    after. *)
Definition carries_inv (w w' : World) : Prop :=
  store_inv (user_histories w) -> store_inv (user_histories w').


(** A text in which a crisis phrase occurs. *)
Definition crisis_sample : pystr := Eval vm_compute in lit "я хочу умереть".

(** Sample data for running the model. *)
Definition OK_RAW : pystr := Eval vm_compute in lit " Понимаю тебя. ".
Definition PLAIN_TEXT : pystr := Eval vm_compute in lit "Мне плохо и тревожно".

(** Fourteen exchanges that succeed, then [k] messages during which the
    completion service times out, all from user 1. *)
Definition outage_run (k : nat) : list (Intent * Env * Update) :=
  replicate 14 (IText, env_ok OK_RAW, text_update 1 PLAIN_TEXT) ++
  replicate k (IText, env_api_fails APITimeoutError, text_update 1 PLAIN_TEXT).

Definition SHOUTED : pystr := Eval vm_compute in lit "НЕ ХОчу Жить".
Definition SHOUTED_PRE : pystr := Eval vm_compute in lit "Знаешь, я больше ".
Definition SHOUTED_POST : pystr := Eval vm_compute in lit " так, как раньше...".
Definition KW_NO_WISH : pystr := Eval vm_compute in lit "не хочу жить".

(** ** Start of the process

    Lines 25 to 33: the two secrets are read from the environment, and
    the module raises [RuntimeError] when one of them is unset or empty. *)

Definition BOT_TOKEN_VAR : pystr := Eval vm_compute in lit "BOT_TOKEN".

Definition OPENAI_API_KEY_VAR : pystr := Eval vm_compute in lit "OPENAI_API_KEY".

Definition NO_BOT_TOKEN_MSG : pystr :=
  Eval vm_compute in lit "Не задан BOT_TOKEN в переменных окружения".

Definition NO_OPENAI_API_KEY_MSG : pystr :=
  Eval vm_compute in lit "Не задан OPENAI_API_KEY в переменных окружения".

(** [not s] for an optional string: true on [None] and on the empty
    string. *)
Definition falsy (o : option pystr) : bool :=
  match o with
  | None => true
  | Some [] => true
  | Some _ => false
  end.

Inductive Startup : Type :=
  | RuntimeError (msg : pystr)
  | Configured (telegram_token openai_api_key : pystr).

(** The module body up to the construction of the client; [environ] is
    the process environment, and [os.getenv] is a lookup in it. *)
Definition module_init (environ : gmap pystr pystr) : Startup :=
  let TELEGRAM_TOKEN := environ !! BOT_TOKEN_VAR in
  let OPENAI_API_KEY := environ !! OPENAI_API_KEY_VAR in
  if falsy TELEGRAM_TOKEN then RuntimeError NO_BOT_TOKEN_MSG
  else if falsy OPENAI_API_KEY then RuntimeError NO_OPENAI_API_KEY_MSG
  else Configured (default [] TELEGRAM_TOKEN) (default [] OPENAI_API_KEY).

(** ** Further notions used in the statements *)

Definition is_reply (ev : Event) : bool :=
  match ev with EvReplyText _ _ => true | _ => false end.

(** How many events of a list satisfy [p]. *)
Definition count_events (p : Event -> bool) (evs : list Event) : nat :=
  length (List.filter p evs).

(** What [reply_text] gives back to the handler. *)
Definition reply_outcome (env : Env) (msg : Message) (t : pystr)
  : Outcome unit :=
  match reply_text_outcome env (chat_id msg) t with
  | None => Returned tt
  | Some e => Raised (ExTelegram e)
  end.

Definition message_log (user : User) (txt : pystr) : Event :=
  EvLogInfo MESSAGE_LOG_FMT [ArgInt (uid user); ArgStr (strip txt)].

Definition start_log (user : User) : Event :=
  EvLogInfo START_LOG_FMT [ArgInt (uid user); log_arg_of_opt (username user)].

(** The transport fails on every reply, and works otherwise; the
    service answers [raw]. *)
Definition env_reply_fails (e : TelegramError) (raw : pystr) : Env :=
  {| send_action_outcome := fun _ _ => None;
     reply_text_outcome := fun _ _ => Some e;
     create_outcome := fun _ => ApiCompletion [Some raw] |}.

(** An update that carries a user but no message. *)
Definition bare_update (user_id : Z) : Update :=
  {| message := None;
     effective_user := Some {| uid := user_id; username := None |};
     effective_chat := Some user_id |}.

(** An update whose message has no sender. *)
Definition anonymous_update (chat : Z) (t : pystr) : Update :=
  {| message := Some {| chat_id := chat; text := Some t |};
     effective_user := None;
     effective_chat := Some chat |}.

Definition BLANK_TEXT : pystr := Eval vm_compute in lit "   ".

(** * Proofs *)

(** ** Strings *)

Lemma startswith_spec (p s : pystr) :
  startswith s p = true <-> exists post, s = p ++ post.
Proof.
  revert s. induction p as [|a p IH]; intros s; simpl.
  - destruct s; (split; [intros _; by eexists | done]).
  - destruct s as [|b s]; simpl.
    + split; [done | intros [post H]; discriminate].
    + rewrite andb_true_iff, N.eqb_eq, IH. split.
      * intros [-> [post ->]]. by exists post.
      * intros [post H]. injection H as -> ->. eauto.
Qed.

Lemma str_contains_spec (kw t : pystr) :
  str_contains kw t = true <-> exists pre post, t = pre ++ kw ++ post.
Proof.
  induction t as [|c t IH]; cbn [str_contains].
  - rewrite orb_false_r, startswith_spec. split.
    + intros [post H]. by exists [], post.
    + intros [pre [post H]]. destruct pre as [|x pre]; [|discriminate].
      by exists post.
  - rewrite orb_true_iff, startswith_spec, IH. split.
    + intros [[post H] | [pre [post H]]].
      * by exists [], post.
      * exists (c :: pre), post. by rewrite H.
    + intros [pre [post H]]. destruct pre as [|x pre]; simpl in H.
      * left. by exists post.
      * right. injection H as _ H. by exists pre, post.
Qed.

Lemma lstrip_spec (s : pystr) :
  exists l, s = l ++ lstrip s /\ forallb isspace l = true /\
            (forall c s', lstrip s = c :: s' -> isspace c = false).
Proof.
  induction s as [|c s (l & Hs & Hl & Hhd)]; simpl.
  - exists []. by repeat split.
  - destruct (isspace c) eqn:Hc.
    + exists (c :: l). simpl. rewrite Hc, Hl. repeat split; [|done].
      by rewrite <- Hs.
    + exists []. repeat split. intros c' s' H. by injection H as <- _.
Qed.

Lemma strip_spec (s : pystr) :
  exists l r, s = l ++ strip s ++ r /\
              forallb isspace l = true /\ forallb isspace r = true /\
              stripped (strip s).
Proof.
  destruct (lstrip_spec s) as (l & Hs & Hl & Hhd).
  destruct (lstrip_spec (rev (lstrip s))) as (r & Hr & Hrs & Hrhd).
  exists l, (rev r). unfold strip, rstrip.
  assert (Hmid : lstrip s = rev (lstrip (rev (lstrip s))) ++ rev r).
  { rewrite <- rev_app_distr, <- Hr. by rewrite rev_involutive. }
  split; [by rewrite <- Hmid|].
  split; [done|]. split.
  { rewrite forallb_forall in *. intros x Hx. apply Hrs. by apply in_rev. }
  split.
  - intros c s' H. rewrite H in Hmid. simpl in Hmid. eauto.
  - intros c s' H. apply (Hrhd c (rev s')).
    rewrite <- (rev_involutive (lstrip (rev (lstrip s)))), H.
    by rewrite rev_app_distr.
Qed.

(** ** Equations of the store operations *)

Lemma get_history_eq (u : Z) (w : World) :
  get_history u w =
  (Returned (history_of (user_histories w) u),
   {| user_histories := <[u := history_of (user_histories w) u]> (user_histories w);
      trace := trace w |}).
Proof.
  unfold get_history, history_of, bind, read_histories, write_histories, ret.
  destruct w as [hs tr]; simpl.
  destruct (hs !! u) as [h|] eqn:Hu; simpl; [|done].
  by rewrite insert_id.
Qed.

Lemma reset_history_eq (u : Z) (w : World) :
  reset_history u w =
  (Returned tt,
   {| user_histories := delete u (user_histories w); trace := trace w |}).
Proof.
  unfold reset_history, bind, read_histories, write_histories, ret.
  destruct w as [hs tr]; simpl.
  destruct (hs !! u) as [h|] eqn:Hu; simpl; [done|].
  by rewrite delete_id.
Qed.

Lemma history_append_eq (u : Z) (h : list Entry) (e : Entry) (w : World) :
  history_append u h e w =
  (Returned (h ++ [e]),
   {| user_histories := <[u := h ++ [e]]> (user_histories w);
      trace := trace w |}).
Proof. reflexivity. Qed.

(** ** Running the monad *)

Lemma bind_returned {A B : Type} (m : M A) (k : A -> M B) (w w' : World) (a : A) :
  m w = (Returned a, w') -> bind m k w = k a w'.
Proof. unfold bind. by intros ->. Qed.

Lemma bind_raised {A B : Type} (m : M A) (k : A -> M B) (w w' : World) (e : Exn) :
  m w = (Raised e, w') -> bind m k w = (Raised e, w').
Proof. unfold bind. by intros ->. Qed.

Ltac run_monad :=
  cbv [bind ret raise try_except emit read_histories write_histories
       index0 attr chat_completions_create history_append
       send_action reply_text reply_if_message crisis_reply];
  cbn [user_histories trace message text effective_user effective_chat
       chat_id uid username].

Lemma call_openai_chat_eq (env : Env) (u : Z) (msg : pystr) (w : World) :
  call_openai_chat env u msg w =
  let h1 := history_of (user_histories w) u ++ [user_entry msg] in
  let req := completion_request h1 in
  match api_text (create_outcome env req) with
  | inr c =>
      (Returned (strip c),
       {| user_histories :=
            <[u := cap (h1 ++ [assistant_entry (strip c)])]> (user_histories w);
          trace := trace w ++ [EvCreate req] |})
  | inl e =>
      (Returned FALLBACK_TEXT,
       {| user_histories := <[u := h1]> (user_histories w);
          trace := trace w ++ [EvCreate req; EvLogException OPENAI_ERROR_MSG e] |})
  end.
Proof.
  unfold call_openai_chat.
  rewrite (bind_returned _ _ _ _ _ (get_history_eq u w)).
  change (mkEntry RoleUser msg) with (user_entry msg).
  set (h1 := history_of (user_histories w) u ++ _).
  cbv zeta. run_monad. fold h1.
  destruct (create_outcome env (completion_request h1)) as [e|[|[c|] rest]];
    cbn [api_text user_histories trace];
    rewrite <- ?app_assoc, ?insert_insert_eq; try reflexivity.
  change (mkEntry RoleAssistant (strip c)) with (assistant_entry (strip c)).
  unfold cap.
  destruct (30 <? length (h1 ++ [assistant_entry (strip c)])) eqn:Hlen.
  - destruct (h1 ++ [assistant_entry (strip c)]) as [|a h2] eqn:Hh; [done|].
    cbn [user_histories trace]. by rewrite !insert_insert_eq.
  - reflexivity.
Qed.

(** ** Properties kept by every handler

    A relation between the state before and after a computation that is
    reflexive, transitive and blind to the trace is kept by a handler as
    soon as the store operations the handler uses keep it. *)

Section Keeps.

Variable R : World -> World -> Prop.
Hypothesis R_refl : forall w, R w w.
Hypothesis R_trans : forall w1 w2 w3, R w1 w2 -> R w2 w3 -> R w1 w3.
Hypothesis R_emit : forall ev, keeps R (emit ev).

Lemma keeps_ret {A : Type} (a : A) : keeps R (ret a).
Proof. intros w. apply R_refl. Qed.

Lemma keeps_raise {A : Type} (e : Exn) : keeps R (@raise A e).
Proof. intros w. apply R_refl. Qed.

Lemma keeps_bind {A B : Type} (m : M A) (k : A -> M B) :
  keeps R m -> (forall a, keeps R (k a)) -> keeps R (bind m k).
Proof.
  intros Hm Hk w. unfold bind. specialize (Hm w).
  destruct (m w) as [[a|e] w']; simpl in *; [|done].
  eapply R_trans; [exact Hm | apply Hk].
Qed.

Lemma keeps_bind_raise {A B : Type} (e : Exn) (k : A -> M B) :
  keeps R (bind (raise e) k).
Proof. intros w. apply R_refl. Qed.

Lemma keeps_bind_ret {A B : Type} (a : A) (k : A -> M B) :
  keeps R (k a) -> keeps R (bind (ret a) k).
Proof. intros H w. apply H. Qed.

Lemma keeps_attr {A : Type} (o : option A) : keeps R (attr o).
Proof. destruct o; [apply keeps_ret | apply keeps_raise]. Qed.

Lemma keeps_send_action env chat a : keeps R (send_action env chat a).
Proof.
  apply keeps_bind; [apply R_emit | intros _].
  destruct (send_action_outcome env chat a);
    [apply keeps_raise | apply keeps_ret].
Qed.

Lemma keeps_reply_text env msg t : keeps R (reply_text env msg t).
Proof.
  apply keeps_bind; [apply R_emit | intros _].
  destruct (reply_text_outcome env (chat_id msg) t);
    [apply keeps_raise | apply keeps_ret].
Qed.

Lemma keeps_reply_if_message env update t :
  keeps R (reply_if_message env update t).
Proof.
  unfold reply_if_message.
  destruct (message update); [apply keeps_reply_text | apply keeps_ret].
Qed.

Lemma keeps_start env update : keeps R (start env update).
Proof.
  apply keeps_bind; [apply keeps_attr | intros user].
  apply keeps_bind; [apply R_emit | intros _].
  apply keeps_reply_if_message.
Qed.

Lemma keeps_help_command env update : keeps R (help_command env update).
Proof. apply keeps_reply_if_message. Qed.

Lemma keeps_reset_command env update :
  (forall user, effective_user update = Some user ->
                keeps R (reset_history (uid user))) ->
  keeps R (reset_command env update).
Proof.
  intros H. unfold reset_command.
  destruct (effective_user update) as [user|]; cbn [attr].
  - apply keeps_bind_ret.
    apply keeps_bind; [by apply H | intros _].
    apply keeps_reply_if_message.
  - apply keeps_bind_raise.
Qed.

Lemma keeps_handle_message lower env update :
  (forall user msg, effective_user update = Some user ->
                    keeps R (call_openai_chat env (uid user) msg)) ->
  keeps R (handle_message lower env update).
Proof.
  intros H. unfold handle_message.
  destruct (message update) as [msg|]; [|apply keeps_ret].
  destruct (text msg) as [[|c txt]|]; try apply keeps_ret.
  destruct (effective_user update) as [user|]; cbn [attr].
  - apply keeps_bind_ret.
    apply keeps_bind; [apply R_emit | intros _].
    apply keeps_bind; [apply keeps_attr | intros chat].
    apply keeps_bind; [apply keeps_send_action | intros _].
    destruct (is_crisis_message lower (Some (strip (c :: txt)))).
    + apply keeps_reply_if_message.
    + apply keeps_bind; [by apply H | intros reply].
      apply keeps_reply_text.
  - apply keeps_bind_raise.
Qed.

Lemma keeps_dispatch lower i env update :
  (forall user, effective_user update = Some user ->
                keeps R (reset_history (uid user))) ->
  (forall user msg, effective_user update = Some user ->
                    keeps R (call_openai_chat env (uid user) msg)) ->
  keeps R (dispatch lower i env update).
Proof.
  intros Hr Hc. destruct i; simpl.
  - apply keeps_start.
  - apply keeps_help_command.
  - by apply keeps_reset_command.
  - by apply keeps_handle_message.
Qed.

End Keeps.

(** ** Equations of the text handler *)

Lemma handle_message_eq lower env update msg txt user chat w :
  message update = Some msg -> text msg = Some txt -> txt <> [] ->
  effective_user update = Some user -> effective_chat update = Some chat ->
  handle_message lower env update w =
  match send_action_outcome env chat TYPING with
  | Some e => (Raised (ExTelegram e), after_typing user chat txt w)
  | None =>
      if is_crisis_message lower (Some (strip txt)) then
        reply_text env msg CRISIS_TEXT (after_typing user chat txt w)
      else
        (let! reply := call_openai_chat env (uid user) (strip txt) in
         reply_text env msg reply) (after_typing user chat txt w)
  end.
Proof.
  intros Hm Ht Hne Hu Hc. unfold handle_message, after_typing.
  rewrite Hm, Ht, Hu, Hc. destruct txt as [|c txt]; [done|].
  set (user_text := strip (c :: txt)).
  unfold crisis_reply, reply_if_message. rewrite Hm.
  cbv [attr]. unfold bind at 1 2 3 4, ret, emit, send_action.
  unfold bind at 1, emit. cbn [user_histories trace].
  rewrite <- app_assoc. cbn [app].
  destruct (send_action_outcome env chat TYPING); [reflexivity|].
  unfold ret. by destruct (is_crisis_message lower (Some user_text)).
Qed.

Lemma reply_text_eq env msg t w :
  reply_text env msg t w =
  (match reply_text_outcome env (chat_id msg) t with
   | None => Returned tt
   | Some e => Raised (ExTelegram e)
   end,
   {| user_histories := user_histories w;
      trace := trace w ++ [EvReplyText (chat_id msg) t] |}).
Proof.
  unfold reply_text, bind, emit.
  by destruct (reply_text_outcome env (chat_id msg) t).
Qed.

(** ** The size limit *)

Lemma slice_last_short {A : Type} (n : nat) (l : list A) :
  length l <= n -> slice_last n l = l.
Proof.
  intros H. unfold slice_last.
  by replace (length l - n) with 0 by lia.
Qed.

Lemma length_slice_last {A : Type} (n : nat) (l : list A) :
  length (slice_last n l) = min n (length l).
Proof. unfold slice_last. rewrite length_drop. lia. Qed.

Lemma slice_last_app {A : Type} (n : nat) (l r : list A) :
  slice_last n (slice_last n l ++ r) = slice_last n (l ++ r).
Proof.
  destruct (decide (length l <= n)) as [Hle|Hgt].
  - by rewrite (slice_last_short n l).
  - unfold slice_last at 1 3. rewrite !length_app, length_slice_last.
    unfold slice_last.
    replace (length l + length r - n)
      with ((length l - n) + (n `min` length l + length r - n)) by lia.
    rewrite <- drop_drop. f_equal.
    rewrite drop_app_le by lia. done.
Qed.

Lemma cap_cons (a : Entry) (t : list Entry) :
  cap (a :: t) = if 30 <=? length t then a :: slice_last 28 t else a :: t.
Proof.
  unfold cap. cbn [length].
  destruct (30 <=? length t) eqn:Hle.
  - apply Nat.leb_le in Hle.
    replace (30 <? S (length t)) with true by (symmetry; apply Nat.ltb_lt; lia).
    f_equal. unfold slice_last. cbn [length].
    replace (S (length t) - 28) with (S (length t - 28)) by lia. done.
  - apply Nat.leb_gt in Hle.
    by replace (30 <? S (length t)) with false by (symmetry; apply Nat.ltb_ge; lia).
Qed.

Lemma length_cap (h : list Entry) : length (cap h) <= 30.
Proof.
  unfold cap. destruct (30 <? length h) eqn:Hlt.
  - destruct h as [|a t]; cbn [length]; [lia|].
    rewrite length_slice_last. lia.
  - apply Nat.ltb_ge in Hlt. lia.
Qed.

(** ** Successful exchanges *)

Lemma api_text_ok env req raw rest :
  create_outcome env req = ApiCompletion (Some raw :: rest) ->
  api_text (create_outcome env req) = inr raw.
Proof. by intros ->. Qed.

Lemma exchange_step_store lower u (x : Exchange) w :
  exchange_ok lower x ->
  user_histories (step lower w (exchange_step u x)) =
  <[u := cap (history_of (user_histories w) u ++
              [user_entry (strip x.1.1); assistant_entry (strip x.1.2)])]>
    (user_histories w).
Proof.
  destruct x as [[t raw] env]. intros (Hne & Hnc & Hsend & Hcreate).
  unfold step, exchange_step, dispatch. cbn [fst snd].
  rewrite (handle_message_eq lower env (text_update u t)
             {| chat_id := u; text := Some t |} t
             {| uid := u; username := None |} u w eq_refl eq_refl Hne eq_refl eq_refl).
  rewrite Hsend, Hnc. unfold bind. rewrite call_openai_chat_eq. cbv zeta.
  cbn [uid user_histories after_typing].
  match goal with |- context [create_outcome env ?r] =>
    destruct (Hcreate r) as [rest Hr]; rewrite (api_text_ok _ _ _ _ Hr) end.
  rewrite reply_text_eq. cbn [snd user_histories].
  by rewrite <- app_assoc.
Qed.

Lemma run_snoc lower xs x w :
  run lower (xs ++ [x]) w = step lower (run lower xs w) x.
Proof. unfold run. by rewrite fold_left_app. Qed.

Lemma conversation_snoc xs (x : Exchange) :
  conversation (xs ++ [x]) =
  conversation xs ++ [user_entry (strip x.1.1); assistant_entry (strip x.1.2)].
Proof.
  unfold conversation. rewrite flat_map_app. cbn [flat_map].
  destruct x as [[t raw] env]. by rewrite app_nil_r.
Qed.

Lemma length_conversation xs : length (conversation xs) = 2 * length xs.
Proof.
  induction xs as [|[[t raw] env] xs IH]; [done|].
  cbn [conversation flat_map length app] in *.
  unfold conversation in IH. rewrite IH. lia.
Qed.

Lemma exchanges_history lower u xs w :
  Forall (exchange_ok lower) xs ->
  user_histories w !! u = None ->
  history_of (user_histories (run lower (map (exchange_step u) xs) w)) u
  = SYSTEM_ENTRY :: slice_last 28 (conversation xs) /\
  (xs <> [] ->
   is_Some (user_histories (run lower (map (exchange_step u) xs) w) !! u)).
Proof.
  intros Hok Hw. induction xs as [|x xs IH] using rev_ind.
  - split; [|done]. unfold history_of. cbn. by rewrite Hw.
  - apply Forall_app in Hok as [Hxs Hx]. apply Forall_inv in Hx.
    destruct (IH Hxs) as [IHh _]. clear IH.
    rewrite map_app. cbn [map]. rewrite run_snoc.
    rewrite (exchange_step_store lower u x _ Hx).
    unfold history_of at 1. rewrite lookup_insert_eq. cbn [default].
    split; [|by eauto].
    rewrite IHh. rewrite <- app_comm_cons, cap_cons, conversation_snoc.
    set (new := [user_entry _; assistant_entry _]).
    destruct (30 <=? length (slice_last 28 (conversation xs) ++ new)) eqn:Hlen.
    + by rewrite slice_last_app.
    + apply Nat.leb_gt in Hlen.
      rewrite length_app, length_slice_last, length_conversation in Hlen.
      cbn [length new] in Hlen.
      rewrite (slice_last_short 28 (conversation xs))
        by (rewrite length_conversation; lia).
      rewrite slice_last_short; [done|].
      rewrite length_app, length_conversation. cbn [length new]. lia.
Qed.

(** * The crisis path *)



(** C2, as stated, fails: when the typing indicator call raises, a crisis
    text gets no crisis reply at all; the handler has ended, with that
    exception, before the filter was consulted. *)
Lemma typing_failure_skips_classification :
  ~ crisis_branch_before_network lower_basic (env_typing_fails NetworkError)
      (text_update 7 crisis_sample) initial_world.
Proof.
  intros H.
  destruct (H {| chat_id := 7; text := Some crisis_sample |} crisis_sample
              eq_refl eq_refl eq_refl) as (pre & post & Htr & _).
  vm_compute in Htr.
  destruct pre as [|? [|? [|? ?]]]; discriminate Htr.
Qed.

(** C2, amended.  The typing indicator call is made first, before the
    filter is consulted.  If it raises, the handler ends with that
    exception and does nothing more, whatever the text.  If it returns,
    the filter decides before any other call is made: a crisis text gets
    the crisis reply and nothing else, any other text leads to the
    completion call. *)
Theorem typing_call_precedes_classification lower env update msg txt user chat w :
  message update = Some msg -> text msg = Some txt -> txt <> [] ->
  effective_user update = Some user -> effective_chat update = Some chat ->
  let r := handle_message lower env update w in
  match send_action_outcome env chat TYPING with
  | Some e => r = (Raised (ExTelegram e), after_typing user chat txt w)
  | None =>
      exists rest,
        trace (snd r) = trace (after_typing user chat txt w) ++ rest /\
        if is_crisis_message lower (Some (strip txt))
        then rest = [EvReplyText (chat_id msg) CRISIS_TEXT]
        else exists req rest', rest = EvCreate req :: rest'
  end.
Proof.
  intros Hm Ht Hne Hu Hc.
  rewrite (handle_message_eq lower env update msg txt user chat w Hm Ht Hne Hu Hc).
  destruct (send_action_outcome env chat TYPING) as [e|]; [done|].
  destruct (is_crisis_message lower (Some (strip txt))).
  - rewrite reply_text_eq. cbn [snd trace]. eauto.
  - unfold bind. rewrite call_openai_chat_eq. cbv zeta.
    destruct (api_text _); rewrite reply_text_eq; cbn [snd trace];
      rewrite <- app_assoc; cbn [app]; eauto.
Qed.

(** * The size limit of a transcript *)

(** C3.  After [N] exchanges that succeed, starting without a transcript
    for the user, the transcript is the system entry followed by the last
    28 messages of the conversation: all of them, [1 + 2N] entries, while
    that is at most 30, and 29 entries afterwards.  In general a call
    that succeeds appends the user and the assistant message and, if the
    list is then longer than 30, stores its first entry followed by its
    last 28. *)
Theorem trimming_keeps_latest_28 lower u (xs : list Exchange) w :
  Forall (exchange_ok lower) xs ->
  user_histories w !! u = None ->
  let w' := run lower (map (exchange_step u) xs) w in
  let h := history_of (user_histories w') u in
  (xs <> [] -> user_histories w' !! u = Some h) /\
  h = SYSTEM_ENTRY :: slice_last 28 (conversation xs) /\
  (1 + 2 * length xs <= 30 ->
   h = SYSTEM_ENTRY :: conversation xs /\ length h = 1 + 2 * length xs) /\
  (30 < 1 + 2 * length xs -> length h = 29) /\
  (forall env msg w0 c,
      let h1 := history_of (user_histories w0) u ++ [user_entry msg] in
      let h2 := h1 ++ [assistant_entry (strip c)] in
      api_text (create_outcome env (completion_request h1)) = inr c ->
      user_histories (snd (call_openai_chat env u msg w0)) !! u =
      Some (if 30 <? length h2
            then hd SYSTEM_ENTRY h2 :: slice_last 28 h2
            else h2)).
Proof.
  intros Hok Hw w' h.
  destruct (exchanges_history lower u xs w Hok Hw) as [Hh Hsome].
  fold w' in Hh, Hsome. fold h in Hh.
  split.
  { intros Hne. destruct (Hsome Hne) as [h' Hh']. subst h.
    unfold history_of. by rewrite Hh'. }
  split; [done|]. split.
  { intros Hle. rewrite Hh.
    rewrite slice_last_short by (rewrite length_conversation; lia).
    split; [done|]. cbn [length]. rewrite length_conversation. lia. }
  split.
  { intros Hgt. rewrite Hh. cbn [length].
    rewrite length_slice_last, length_conversation. lia. }
  intros env msg w0 c h1 h2 Hapi.
  rewrite call_openai_chat_eq. cbv zeta. fold h1. rewrite Hapi.
  cbn [snd user_histories]. rewrite lookup_insert_eq. fold h2.
  unfold cap. destruct (30 <? length h2); [|done].
  destruct h2 as [|a t] eqn:E; [|done].
  subst h2. by destruct h1.
Qed.

(** * Failure of the completion service *)

Lemma failed_step_store lower u t e w :
  t <> [] -> is_crisis_message lower (Some (strip t)) = false ->
  user_histories (step lower w (IText, env_api_fails e, text_update u t)) =
  <[u := history_of (user_histories w) u ++ [user_entry (strip t)]]>
    (user_histories w).
Proof.
  intros Hne Hnc. unfold step, dispatch.
  rewrite (handle_message_eq lower _ (text_update u t)
             {| chat_id := u; text := Some t |} t
             {| uid := u; username := None |} u w eq_refl eq_refl Hne eq_refl eq_refl).
  cbn [env_api_fails send_action_outcome]. rewrite Hnc.
  unfold bind. rewrite call_openai_chat_eq. cbv zeta.
  cbn [env_api_fails create_outcome api_text]. by rewrite reply_text_eq.
Qed.

(** C4 fails on the code: the size limit is applied only after an answer
    of the service was stored.  After fourteen exchanges and [k] messages
    that meet a failing service, the transcript has [29 + k] entries: 31
    after two of them, and more with every further one. *)
Theorem failed_calls_outgrow_cap (k : nat) :
  length <$> (user_histories (run lower_basic (outage_run k) initial_world) !! 1%Z)
  = Some (29 + k).
Proof.
  induction k as [|k IH].
  - vm_compute. reflexivity.
  - unfold outage_run in *. rewrite (replicate_S_end k), app_assoc, run_snoc.
    rewrite failed_step_store by done.
    rewrite lookup_insert_eq. unfold history_of.
    destruct (user_histories _ !! 1%Z) as [h|]; [|done].
    cbn in *. injection IH as IH. rewrite length_app, IH. cbn. f_equal. lia.
Qed.

(** C5.  When the [try] block raises, [call_openai_chat] returns the
    fallback text, the stored transcript is the one before the call with
    the user message appended, and its assistant entries are those it had
    before: no answer is recorded for the attempt. *)
Theorem failure_returns_fallback env u msg w e :
  api_text (create_outcome env
              (completion_request
                 (history_of (user_histories w) u ++ [user_entry msg]))) = inl e ->
  let r := call_openai_chat env u msg w in
  fst r = Returned FALLBACK_TEXT /\
  user_histories (snd r) !! u
  = Some (history_of (user_histories w) u ++ [user_entry msg]) /\
  (forall h', user_histories (snd r) !! u = Some h' ->
     filter (fun x => role x = RoleAssistant) h'
     = filter (fun x => role x = RoleAssistant) (history_of (user_histories w) u)) /\
  trace (snd r) = trace w ++
    [EvCreate (completion_request
                 (history_of (user_histories w) u ++ [user_entry msg]));
     EvLogException OPENAI_ERROR_MSG e].
Proof.
  intros Hapi r. subst r. rewrite call_openai_chat_eq. cbv zeta. rewrite Hapi.
  cbn [fst snd user_histories trace]. rewrite lookup_insert_eq.
  split; [done|]. split; [done|]. split; [|done].
  intros h' [= <-]. rewrite filter_app. cbn. by rewrite app_nil_r.
Qed.

(** C6.  [call_openai_chat] always returns and never raises.  It calls
    the service once with the transcript ending in the new user message.
    If a text comes back, the result is that text without its leading and
    trailing whitespace; in every other case the exception is logged once
    and the result is the fallback text, and the service is not called
    again. *)
Theorem completion_client_never_raises env u msg w :
  let req := completion_request
               (history_of (user_histories w) u ++ [user_entry msg]) in
  exists reply w',
    call_openai_chat env u msg w = (Returned reply, w') /\
    match api_text (create_outcome env req) with
    | inr c =>
        reply = strip c /\
        (exists l r, c = l ++ reply ++ r /\
                     forallb isspace l = true /\ forallb isspace r = true /\
                     stripped reply) /\
        trace w' = trace w ++ [EvCreate req]
    | inl e =>
        reply = FALLBACK_TEXT /\
        trace w' = trace w ++ [EvCreate req; EvLogException OPENAI_ERROR_MSG e]
    end.
Proof.
  intros req. rewrite call_openai_chat_eq. cbv zeta. fold req.
  destruct (api_text (create_outcome env req)) as [e|c].
  - eexists _, _. split; [reflexivity|]. by split.
  - eexists _, _. split; [reflexivity|]. split; [done|].
    split; [|done]. destruct (strip_spec c) as (l & r & H). eauto.
Qed.

(** * The crisis filter *)

Lemma is_crisis_message_spec lower (s : pystr) :
  is_crisis_message lower (Some s) = true <->
  s <> [] /\ exists kw, In kw crisis_keywords /\
                        exists pre post, lower s = pre ++ kw ++ post.
Proof.
  destruct s as [|c s]; cbn [is_crisis_message].
  - split; [done | by intros [? _]].
  - cbv zeta. rewrite existsb_exists. split.
    + intros (kw & Hin & H). split; [done|]. exists kw. split; [done|].
      by apply str_contains_spec.
    + intros (_ & kw & Hin & H). exists kw. split; [done|].
      by apply str_contains_spec.
Qed.

Lemma keywords_lower_cyrillic :
  forallb (forallb (fun k => (k =? 32)%N || ((1072 <=? k)%N && (k <=? 1103)%N)))
          crisis_keywords = true.
Proof. vm_compute. reflexivity. Qed.

Ltac n_cases :=
  repeat (match goal with
          | |- context [N.leb ?a ?b] => destruct (N.leb_spec a b)
          | |- context [N.eqb ?a ?b] => destruct (N.eqb_spec a b)
          end; cbn [andb orb negb]);
  intros; try done; try lia.

Lemma cyr_lower_preimage (c k : N) :
  cyr_lower c = k ->
  (k =? 32)%N || ((1072 <=? k)%N && (k <=? 1103)%N) = true ->
  cyr_or_space c = true.
Proof. unfold cyr_lower, cyr_or_space. intros <-. n_cases. Qed.

Lemma case_variant_cyrillic (w kw : pystr) :
  In kw crisis_keywords -> map cyr_lower w = kw ->
  forallb cyr_or_space w = true.
Proof.
  intros Hin Hw.
  pose proof keywords_lower_cyrillic as Hk.
  rewrite forallb_forall in Hk. specialize (Hk kw Hin). subst kw. clear Hin.
  induction w as [|c w IH]; [done|].
  cbn [map forallb] in *. apply andb_true_iff in Hk as [Hc Hk].
  rewrite (cyr_lower_preimage c _ eq_refl Hc). by apply IH.
Qed.

(** C7.  The filter answers true on every text in which one of the
    phrases occurs in any mix of capital and small letters, whatever
    surrounds it, and false on the empty text and on a null argument; it
    answers true exactly when the lowered text is not empty and has one
    of the phrases as a contiguous part. *)
Theorem crisis_filter_matches_any_case lower :
  lowers_cyrillic_runs lower ->
  (forall kw w pre post,
      In kw crisis_keywords -> map cyr_lower w = kw ->
      is_crisis_message lower (Some (pre ++ w ++ post)) = true) /\
  is_crisis_message lower (Some []) = false /\
  is_crisis_message lower None = false /\
  (forall s, is_crisis_message lower (Some s) = true <->
             s <> [] /\ exists kw, In kw crisis_keywords /\
                                   exists pre post, lower s = pre ++ kw ++ post).
Proof.
  intros Hlower. split; [|split; [done|split; [done|apply is_crisis_message_spec]]].
  intros kw w pre post Hin Hw.
  apply is_crisis_message_spec. split.
  - destruct w as [|c w].
    + subst kw. exfalso. revert Hin. vm_compute. intuition discriminate.
    + by destruct pre.
  - exists kw. split; [done|].
    destruct (Hlower pre w post (case_variant_cyrillic w kw Hin Hw))
      as (pre' & post' & ->).
    rewrite Hw. eauto.
Qed.

Lemma lower_basic_cyrillic (c : N) :
  cyr_or_space c = true -> lower_cp c = cyr_lower c.
Proof. unfold cyr_or_space, lower_cp, cyr_lower. n_cases. Qed.

Lemma lower_basic_runs : lowers_cyrillic_runs lower_basic.
Proof.
  intros pre w post Hw. exists (lower_basic pre), (lower_basic post).
  unfold lower_basic. rewrite !map_app. do 2 f_equal.
  induction w as [|c w IH]; [done|].
  cbn [forallb map] in *. apply andb_true_iff in Hw as [Hc Hw].
  by rewrite (lower_basic_cyrillic c Hc), IH.
Qed.

Lemma crisis_filter_matches_any_case_witness :
  lowers_cyrillic_runs lower_basic /\
  is_crisis_message lower_basic (Some (SHOUTED_PRE ++ SHOUTED ++ SHOUTED_POST)) = true.
Proof.
  split; [exact lower_basic_runs|].
  apply (proj1 (crisis_filter_matches_any_case lower_basic lower_basic_runs)
           KW_NO_WISH SHOUTED SHOUTED_PRE SHOUTED_POST).
  - vm_compute. tauto.
  - vm_compute. reflexivity.
Defined.

(** * The store: invariant, reset, isolation *)

Lemma transcript_ok_fresh : transcript_ok [SYSTEM_ENTRY].
Proof. exists []. by split. Qed.

Lemma transcript_ok_snoc h e :
  transcript_ok h -> role e <> RoleSystem -> transcript_ok (h ++ [e]).
Proof.
  intros (t & -> & Ht) He. exists (t ++ [e]). split; [done|].
  apply Forall_app. split; [done|]. by apply Forall_singleton.
Qed.

Lemma transcript_ok_cap h : transcript_ok h -> transcript_ok (cap h).
Proof.
  intros (t & -> & Ht). rewrite cap_cons.
  destruct (30 <=? length t).
  - exists (slice_last 28 t). split; [done|]. by apply Forall_drop.
  - by exists t.
Qed.

Lemma transcript_ok_history_of hs u :
  store_inv hs -> transcript_ok (history_of hs u).
Proof.
  intros Hinv. unfold history_of.
  destruct (hs !! u) as [h|] eqn:Hu; cbn; [by eapply Hinv | apply transcript_ok_fresh].
Qed.

Lemma store_inv_insert hs u h :
  store_inv hs -> transcript_ok h -> store_inv (<[u := h]> hs).
Proof.
  intros Hinv Hh u' h'. rewrite lookup_insert.
  case_decide; [by intros [= <-] | apply Hinv].
Qed.

Lemma store_inv_delete hs u : store_inv hs -> store_inv (delete u hs).
Proof.
  intros Hinv u' h'. rewrite lookup_delete.
  case_decide; [done | apply Hinv].
Qed.

Lemma store_inv_empty : store_inv ∅.
Proof. intros u h. by rewrite lookup_empty. Qed.

Lemma carries_inv_call env u msg : keeps carries_inv (call_openai_chat env u msg).
Proof.
  intros w Hinv. rewrite call_openai_chat_eq. cbv zeta.
  pose proof (transcript_ok_history_of _ u Hinv) as Hh.
  destruct (api_text _); cbn [snd user_histories];
    apply store_inv_insert; try done.
  - by apply transcript_ok_snoc.
  - apply transcript_ok_cap. by repeat apply transcript_ok_snoc.
Qed.

Lemma carries_inv_reset u : keeps carries_inv (reset_history u).
Proof.
  intros w Hinv. rewrite reset_history_eq. by apply store_inv_delete.
Qed.

Lemma carries_inv_dispatch lower i env update :
  keeps carries_inv (dispatch lower i env update).
Proof.
  apply keeps_dispatch.
  - intros w H. exact H.
  - intros w1 w2 w3 H12 H23 H. apply H23, H12, H.
  - intros ev w H. exact H.
  - intros; apply carries_inv_reset.
  - intros; apply carries_inv_call.
Qed.

Lemma store_inv_run lower xs w :
  store_inv (user_histories w) -> store_inv (user_histories (run lower xs w)).
Proof.
  revert w. induction xs as [|[[i env] update] xs IH]; intros w Hinv; [done|].
  cbn [run fold_left]. apply IH. by apply carries_inv_dispatch.
Qed.

(** C8.  If every stored transcript starts with the system entry and has
    no other system entry, the same holds after [get_history], after
    [reset_history], after an append of a user or assistant entry, after
    [call_openai_chat] whether the service answers or fails (and then the
    transcript of the user still starts with the system entry), after any
    handler and after any sequence of updates; hence in every state
    reached from the empty store. *)
Theorem store_invariant_preserved lower w :
  store_inv (user_histories w) ->
  (forall u, store_inv (user_histories (snd (get_history u w)))) /\
  (forall u, store_inv (user_histories (snd (reset_history u w)))) /\
  (forall u h e, user_histories w !! u = Some h -> role e <> RoleSystem ->
                 store_inv (user_histories (snd (history_append u h e w)))) /\
  (forall env u msg,
      store_inv (user_histories (snd (call_openai_chat env u msg w))) /\
      exists t, user_histories (snd (call_openai_chat env u msg w)) !! u
                = Some (SYSTEM_ENTRY :: t)) /\
  (forall i env update,
      store_inv (user_histories (snd (dispatch lower i env update w)))) /\
  (forall xs, store_inv (user_histories (run lower xs w))) /\
  (forall xs, store_inv (user_histories (run lower xs initial_world))).
Proof.
  intros Hinv. repeat split.
  - intros u. rewrite get_history_eq. cbn [snd user_histories].
    apply store_inv_insert; [done | by apply transcript_ok_history_of].
  - intros u. by apply carries_inv_reset.
  - intros u h e Hh He. rewrite history_append_eq. cbn [snd user_histories].
    apply store_inv_insert; [done|]. apply transcript_ok_snoc; [|done].
    by eapply Hinv.
  - by apply carries_inv_call.
  - pose proof (carries_inv_call env u msg w Hinv) as Hinv'.
    assert (is_Some (user_histories (snd (call_openai_chat env u msg w)) !! u))
      as [h Hh].
    { rewrite call_openai_chat_eq. cbv zeta.
      destruct (api_text _); cbn [snd user_histories];
        rewrite lookup_insert_eq; eauto. }
    destruct (Hinv' u h Hh) as (t & -> & _). eauto.
  - intros i env update. by apply carries_inv_dispatch.
  - intros xs. by apply store_inv_run.
  - intros xs. apply store_inv_run. apply store_inv_empty.
Qed.

(** C9.  [reset_history] never raises and removes the transcript of the
    user, present or not, leaving the trace alone; a second reset changes
    nothing; [get_history] then returns and stores a transcript whose
    only entry is the system entry; the reset handler removes the
    transcript of the user of the update. *)
Theorem reset_discards_history u w :
  let w1 := snd (reset_history u w) in
  fst (reset_history u w) = Returned tt /\
  user_histories w1 = delete u (user_histories w) /\
  user_histories w1 !! u = None /\
  trace w1 = trace w /\
  reset_history u w1 = (Returned tt, w1) /\
  fst (get_history u w1) = Returned [SYSTEM_ENTRY] /\
  user_histories (snd (get_history u w1)) !! u = Some [SYSTEM_ENTRY] /\
  length <$> (user_histories (snd (get_history u w1)) !! u) = Some 1 /\
  (forall env update user,
      effective_user update = Some user -> uid user = u ->
      user_histories (snd (reset_command env update w)) !! u = None).
Proof.
  intros w1. subst w1. rewrite !reset_history_eq. cbn [fst snd].
  rewrite get_history_eq. cbn [fst snd user_histories trace].
  unfold history_of. rewrite !lookup_delete_eq, lookup_insert_eq. cbn [default].
  repeat split.
  - by rewrite delete_delete_eq.
  - intros env update user Hu <-. unfold reset_command. rewrite Hu.
    unfold bind at 1. cbn [attr ret]. unfold bind at 1. rewrite reset_history_eq.
    unfold reply_if_message.
    destruct (message update) as [msg|]; [rewrite reply_text_eq|];
      cbn [snd ret user_histories]; apply lookup_delete_eq.
Qed.

Lemma same_at_call env u u' msg :
  u <> u' -> keeps (same_at u') (call_openai_chat env u msg).
Proof.
  intros Hne w. unfold same_at. rewrite call_openai_chat_eq. cbv zeta.
  destruct (api_text _); cbn [snd user_histories]; by rewrite lookup_insert_ne.
Qed.

Lemma same_at_reset u u' : u <> u' -> keeps (same_at u') (reset_history u).
Proof.
  intros Hne w. unfold same_at. rewrite reset_history_eq.
  cbn [snd user_histories]. by rewrite lookup_delete_ne.
Qed.

(** C10.  What is stored for [u'] is the same before and after
    [get_history], [reset_history], an append, [call_openai_chat], any
    handler and any sequence of updates, when these act for another user
    [u]. *)
Theorem per_user_isolation lower u u' w :
  u <> u' ->
  same_at u' w (snd (get_history u w)) /\
  same_at u' w (snd (reset_history u w)) /\
  (forall h e, same_at u' w (snd (history_append u h e w))) /\
  (forall env msg, same_at u' w (snd (call_openai_chat env u msg w))) /\
  (forall i env update,
      (forall user, effective_user update = Some user -> uid user = u) ->
      same_at u' w (snd (dispatch lower i env update w))) /\
  (forall xs,
      Forall (fun x : Intent * Env * Update =>
                forall user, effective_user x.2 = Some user -> uid user = u) xs ->
      same_at u' w (run lower xs w)).
Proof.
  intros Hne.
  assert (Hd : forall i env update w0,
             (forall user, effective_user update = Some user -> uid user = u) ->
             same_at u' w0 (snd (dispatch lower i env update w0))).
  { intros i env update w0 Hu. apply keeps_dispatch.
    - intros w1. reflexivity.
    - unfold same_at. intros w1 w2 w3 H12 H23. by rewrite H23.
    - intros ev w1. reflexivity.
    - intros user Huser. rewrite (Hu user Huser). by apply same_at_reset.
    - intros user msg Huser. rewrite (Hu user Huser). by apply same_at_call. }
  repeat split.
  - unfold same_at. rewrite get_history_eq. cbn [snd user_histories].
    by rewrite lookup_insert_ne.
  - by apply same_at_reset.
  - intros h e. unfold same_at. rewrite history_append_eq.
    cbn [snd user_histories]. by rewrite lookup_insert_ne.
  - intros env msg. by apply same_at_call.
  - intros i env update Hu. by apply Hd.
  - intros xs. revert w. induction xs as [|[[i env] update] xs IH]; intros w Hxs.
    + done.
    + apply Forall_cons in Hxs as [Hx Hxs]. cbn [run fold_left].
      unfold same_at in *. unfold run in IH. rewrite (IH _ Hxs).
      by apply Hd.
Qed.

(** * The theorems at concrete inputs *)


Lemma typing_call_precedes_classification_witness :
  handle_message lower_basic (env_typing_fails NetworkError)
    (text_update 7 crisis_sample) initial_world
  = (Raised (ExTelegram NetworkError),
     after_typing {| uid := 7; username := None |} 7 crisis_sample
       initial_world).
Proof.
  apply (typing_call_precedes_classification lower_basic
           (env_typing_fails NetworkError) (text_update 7 crisis_sample)
           {| chat_id := 7; text := Some crisis_sample |} crisis_sample
           {| uid := 7; username := None |} 7 initial_world);
    [reflexivity | reflexivity | discriminate | reflexivity | reflexivity].
Defined.

Lemma trimming_keeps_latest_28_witness :
  user_histories initial_world !! 1%Z = None /\
  length (history_of
            (user_histories
               (run lower_basic
                  (map (exchange_step 1)
                     (replicate 16 (PLAIN_TEXT, OK_RAW, env_ok OK_RAW)))
                  initial_world)) 1%Z) = 29.
Proof.
  split; [reflexivity|].
  apply (trimming_keeps_latest_28 lower_basic 1%Z
           (replicate 16 (PLAIN_TEXT, OK_RAW, env_ok OK_RAW)) initial_world).
  - apply Forall_replicate. unfold exchange_ok.
    split; [discriminate|]. split; [reflexivity|].
    split; [reflexivity|]. intros req. exists []. reflexivity.
  - reflexivity.
  - simpl. lia.
Defined.

Lemma failure_returns_fallback_witness :
  fst (call_openai_chat (env_api_fails APITimeoutError) 1%Z PLAIN_TEXT
         initial_world)
  = Returned FALLBACK_TEXT.
Proof.
  apply (failure_returns_fallback (env_api_fails APITimeoutError) 1%Z
           PLAIN_TEXT initial_world (ExOpenAI APITimeoutError)).
  reflexivity.
Defined.

Lemma store_invariant_preserved_witness :
  store_inv (user_histories initial_world) /\
  store_inv (user_histories (run lower_basic (outage_run 2) initial_world)).
Proof.
  assert (H0 : store_inv (user_histories initial_world)).
  { intros u h H. vm_compute in H. discriminate H. }
  split; [exact H0|].
  apply (store_invariant_preserved lower_basic initial_world H0).
Defined.

Lemma per_user_isolation_witness :
  (1 <> 2)%Z /\
  same_at 2%Z
    (run lower_basic [(IText, env_ok OK_RAW, text_update 2 PLAIN_TEXT)]
       initial_world)
    (snd (call_openai_chat (env_ok OK_RAW) 1%Z PLAIN_TEXT
            (run lower_basic [(IText, env_ok OK_RAW, text_update 2 PLAIN_TEXT)]
               initial_world))).
Proof.
  split; [lia|].
  apply (per_user_isolation lower_basic 1%Z 2%Z
           (run lower_basic [(IText, env_ok OK_RAW, text_update 2 PLAIN_TEXT)]
              initial_world)).
  lia.
Defined.

(** * Further properties of the handlers and of the store *)

Lemma world_eta (w : World) :
  {| user_histories := user_histories w; trace := trace w |} = w.
Proof. by destruct w. Qed.

Lemma history_of_insert hs u h : history_of (<[u := h]> hs) u = h.
Proof. unfold history_of. by rewrite lookup_insert_eq. Qed.

(** X1.  [get_history] leaves the trace alone.  For a user without a
    transcript it returns the one-entry transcript and stores it; for a
    user with one it returns the stored list and changes nothing.  In
    both cases what it returns is what is stored afterwards, and a second
    call gives the same result without changing the state again. *)
Theorem get_history_creates_once u w :
  let r := get_history u w in
  trace (snd r) = trace w /\
  (user_histories w !! u = None ->
   fst r = Returned [SYSTEM_ENTRY] /\
   user_histories (snd r) = <[u := [SYSTEM_ENTRY]]> (user_histories w)) /\
  (forall h, user_histories w !! u = Some h -> r = (Returned h, w)) /\
  (exists h, fst r = Returned h /\ user_histories (snd r) !! u = Some h) /\
  get_history u (snd r) = r.
Proof.
  intros r. subst r. rewrite !get_history_eq. cbn [fst snd user_histories trace].
  split; [done|]. split.
  { intros Hu. unfold history_of. by rewrite Hu. }
  split.
  { intros h Hu. unfold history_of. rewrite Hu. cbn [default].
    by rewrite insert_id, world_eta. }
  split.
  { eexists. split; [done|]. apply lookup_insert_eq. }
  by rewrite history_of_insert, insert_insert_eq.
Qed.

Lemma reply_if_message_eq env update t w :
  reply_if_message env update t w =
  match message update with
  | Some msg =>
      (reply_outcome env msg t,
       {| user_histories := user_histories w;
          trace := trace w ++ [EvReplyText (chat_id msg) t] |})
  | None => (Returned tt, w)
  end.
Proof.
  unfold reply_if_message. destruct (message update); [|done].
  apply reply_text_eq.
Qed.

Lemma start_eq env update w :
  start env update w =
  match effective_user update with
  | None => (Raised ExAttributeError, w)
  | Some user =>
      reply_if_message env update START_TEXT
        {| user_histories := user_histories w;
           trace := trace w ++ [start_log user] |}
  end.
Proof. unfold start. by destruct (effective_user update). Qed.

Lemma reset_command_eq env update w :
  reset_command env update w =
  match effective_user update with
  | None => (Raised ExAttributeError, w)
  | Some user =>
      reply_if_message env update RESET_TEXT
        {| user_histories := delete (uid user) (user_histories w);
           trace := trace w |}
  end.
Proof.
  unfold reset_command. destruct (effective_user update) as [user|]; [|done].
  cbn [attr]. unfold bind at 1, ret. unfold bind at 1.
  by rewrite reset_history_eq.
Qed.

(** X2.  [start] never touches [user_histories].  With a user and a
    message it logs the user and makes one reply, the onboarding text;
    with a user and no message it only logs. *)
Theorem start_creates_no_history env update w :
  let r := start env update w in
  user_histories (snd r) = user_histories w /\
  (forall user msg,
      effective_user update = Some user -> message update = Some msg ->
      fst r = reply_outcome env msg START_TEXT /\
      trace (snd r) = trace w ++ [start_log user; EvReplyText (chat_id msg) START_TEXT]) /\
  (forall user,
      effective_user update = Some user -> message update = None ->
      fst r = Returned tt /\ trace (snd r) = trace w ++ [start_log user]).
Proof.
  intros r. subst r. rewrite start_eq.
  destruct (effective_user update) as [user|]; rewrite ?reply_if_message_eq;
    destruct (message update) as [msg|];
    cbn [fst snd user_histories trace]; rewrite <- ?app_assoc;
    (split; [done|]); split; try done.
  - by intros ? ? [= <-] [= <-].
  - by intros ? [= <-] _.
Qed.

(** X3.  [help_command] reads neither the user nor the store: it makes
    one reply, the help text, when the update has a message, and does
    nothing at all otherwise. *)
Theorem help_needs_no_user env update w :
  let r := help_command env update w in
  user_histories (snd r) = user_histories w /\
  (forall msg, message update = Some msg ->
               fst r = reply_outcome env msg HELP_TEXT /\
               trace (snd r) = trace w ++ [EvReplyText (chat_id msg) HELP_TEXT]) /\
  (message update = None -> r = (Returned tt, w)).
Proof.
  intros r. subst r. unfold help_command. rewrite reply_if_message_eq.
  destruct (message update) as [msg|]; cbn [fst snd user_histories trace];
    (split; [done|]); split; try done.
  by intros ? [= <-].
Qed.

(** X4.  [reset_command] deletes the transcript of the user before it
    sends the confirmation: the transcript is gone whatever [reply_text]
    does, also when the handler ends with the exception of the
    transport. *)
Theorem reset_precedes_confirmation env update user w :
  effective_user update = Some user ->
  let r := reset_command env update w in
  user_histories (snd r) = delete (uid user) (user_histories w) /\
  (forall msg, message update = Some msg ->
               fst r = reply_outcome env msg RESET_TEXT /\
               trace (snd r) = trace w ++ [EvReplyText (chat_id msg) RESET_TEXT]) /\
  (message update = None -> fst r = Returned tt /\ trace (snd r) = trace w).
Proof.
  intros Hu r. subst r. rewrite reset_command_eq, Hu, reply_if_message_eq.
  destruct (message update) as [msg|]; cbn [fst snd user_histories trace];
    (split; [done|]); split; try done.
  by intros ? [= <-].
Qed.

(** X5.  An update without a message, or whose message has no text or an
    empty text, is dropped by [handle_message]: it returns normally, and
    nothing is logged, sent or stored. *)
Theorem textless_update_dropped lower env update w :
  (forall msg, message update = Some msg ->
               text msg = None \/ text msg = Some []) ->
  handle_message lower env update w = (Returned tt, w).
Proof.
  intros H. unfold handle_message.
  destruct (message update) as [msg|]; [|done].
  by destruct (H msg eq_refl) as [-> | ->].
Qed.

(** X17.  On an update without a user, [start] and [reset_command], and
    the text handler on a non-empty text, raise [AttributeError] before
    they do anything: the state is the one before. *)
Theorem missing_user_raises lower env update w :
  effective_user update = None ->
  start env update w = (Raised ExAttributeError, w) /\
  reset_command env update w = (Raised ExAttributeError, w) /\
  (forall msg c txt,
      message update = Some msg -> text msg = Some (c :: txt) ->
      handle_message lower env update w = (Raised ExAttributeError, w)).
Proof.
  intros Hu. rewrite start_eq, reset_command_eq, Hu.
  split; [done|]. split; [done|].
  intros msg c txt Hm Ht. unfold handle_message. by rewrite Hm, Ht, Hu.
Qed.

(** ** The text handler, path by path *)

Lemma handle_message_normal_eq lower env update msg txt user chat w :
  message update = Some msg -> text msg = Some txt -> txt <> [] ->
  effective_user update = Some user -> effective_chat update = Some chat ->
  send_action_outcome env chat TYPING = None ->
  is_crisis_message lower (Some (strip txt)) = false ->
  let h1 := history_of (user_histories w) (uid user) ++ [user_entry (strip txt)] in
  let req := completion_request h1 in
  handle_message lower env update w =
  match api_text (create_outcome env req) with
  | inr c =>
      (reply_outcome env msg (strip c),
       {| user_histories :=
            <[uid user := cap (h1 ++ [assistant_entry (strip c)])]> (user_histories w);
          trace := trace w ++
                   [message_log user txt; EvSendAction chat TYPING;
                    EvCreate req; EvReplyText (chat_id msg) (strip c)] |})
  | inl e =>
      (reply_outcome env msg FALLBACK_TEXT,
       {| user_histories := <[uid user := h1]> (user_histories w);
          trace := trace w ++
                   [message_log user txt; EvSendAction chat TYPING;
                    EvCreate req; EvLogException OPENAI_ERROR_MSG e;
                    EvReplyText (chat_id msg) FALLBACK_TEXT] |})
  end.
Proof.
  intros Hm Ht Hne Hu Hc Hs Hnc h1 req.
  rewrite (handle_message_eq lower env update msg txt user chat w Hm Ht Hne Hu Hc).
  rewrite Hs, Hnc. unfold bind. rewrite call_openai_chat_eq. cbv zeta.
  cbn [after_typing user_histories trace]. fold h1. fold req.
  destruct (api_text (create_outcome env req)); rewrite reply_text_eq;
    cbn [user_histories trace]; rewrite <- !app_assoc; reflexivity.
Qed.

(** X7.  For a text that is not a crisis and that the service answers,
    the handler stores the stripped text and the stripped answer (under
    the size limit) before it replies: they are stored whatever
    [reply_text] does, and the handler ends as [reply_text] ends.  The
    effects are the log entry, the typing indicator, one call to the
    service and one reply, the stripped answer. *)
Theorem answered_message_recorded_before_reply
    lower env update msg txt user chat w c :
  message update = Some msg -> text msg = Some txt -> txt <> [] ->
  effective_user update = Some user -> effective_chat update = Some chat ->
  send_action_outcome env chat TYPING = None ->
  is_crisis_message lower (Some (strip txt)) = false ->
  let h1 := history_of (user_histories w) (uid user) ++ [user_entry (strip txt)] in
  api_text (create_outcome env (completion_request h1)) = inr c ->
  let r := handle_message lower env update w in
  fst r = reply_outcome env msg (strip c) /\
  user_histories (snd r) !! uid user = Some (cap (h1 ++ [assistant_entry (strip c)])) /\
  trace (snd r) = trace w ++
                  [message_log user txt; EvSendAction chat TYPING;
                   EvCreate (completion_request h1);
                   EvReplyText (chat_id msg) (strip c)].
Proof.
  intros Hm Ht Hne Hu Hc Hs Hnc h1 Hapi r. subst r.
  rewrite (handle_message_normal_eq lower env update msg txt user chat w
             Hm Ht Hne Hu Hc Hs Hnc).
  cbv zeta. fold h1. rewrite Hapi. cbn [fst snd user_histories trace].
  by rewrite lookup_insert_eq.
Qed.

(** X8.  For a text that is not a crisis and on which the service fails,
    the user gets the fallback text as the reply; the exception is logged
    and does not leave the handler, and the transcript is the previous
    one with the user message appended. *)
Theorem failed_completion_answers_fallback
    lower env update msg txt user chat w e :
  message update = Some msg -> text msg = Some txt -> txt <> [] ->
  effective_user update = Some user -> effective_chat update = Some chat ->
  send_action_outcome env chat TYPING = None ->
  is_crisis_message lower (Some (strip txt)) = false ->
  let h1 := history_of (user_histories w) (uid user) ++ [user_entry (strip txt)] in
  api_text (create_outcome env (completion_request h1)) = inl e ->
  let r := handle_message lower env update w in
  fst r = reply_outcome env msg FALLBACK_TEXT /\
  user_histories (snd r) !! uid user = Some h1 /\
  trace (snd r) = trace w ++
                  [message_log user txt; EvSendAction chat TYPING;
                   EvCreate (completion_request h1);
                   EvLogException OPENAI_ERROR_MSG e;
                   EvReplyText (chat_id msg) FALLBACK_TEXT].
Proof.
  intros Hm Ht Hne Hu Hc Hs Hnc h1 Hapi r. subst r.
  rewrite (handle_message_normal_eq lower env update msg txt user chat w
             Hm Ht Hne Hu Hc Hs Hnc).
  cbv zeta. fold h1. rewrite Hapi. cbn [fst snd user_histories trace].
  by rewrite lookup_insert_eq.
Qed.

Lemma lstrip_blank (s : pystr) : forallb isspace s = true -> lstrip s = [].
Proof.
  induction s as [|c s IH]; [done|]. cbn [forallb lstrip].
  intros [Hc Hs]%andb_true_iff. rewrite Hc. by apply IH.
Qed.

Lemma strip_blank (s : pystr) : forallb isspace s = true -> strip s = [].
Proof. intros H. unfold strip. by rewrite (lstrip_blank s H). Qed.

Lemma elem_of_cap_recent (h0 : list Entry) (x a : Entry) :
  x ∈ cap ((h0 ++ [x]) ++ [a]).
Proof.
  unfold cap. rewrite <- app_assoc. cbn [app].
  destruct (30 <? length (h0 ++ [x; a])) eqn:Hlt.
  - apply Nat.ltb_lt in Hlt. rewrite length_app in Hlt. cbn [length] in Hlt.
    destruct (h0 ++ [x; a]) as [|b t] eqn:E; [by destruct h0|].
    rewrite <- E. apply elem_of_cons. right. unfold slice_last.
    rewrite drop_app_le by (rewrite length_app; cbn [length]; lia).
    apply elem_of_app. right. apply elem_of_cons. by left.
  - apply elem_of_app. right. apply elem_of_cons. by left.
Qed.

(** X6.  A text made of whitespace only is not dropped: it is not empty,
    so the handler goes on, strips it to the empty string, and (when the
    typing indicator is sent) calls the service with a user message of
    empty content, which is then in the stored transcript. *)
Theorem blank_message_reaches_service
    lower env update msg txt user chat w :
  message update = Some msg -> text msg = Some txt -> txt <> [] ->
  forallb isspace txt = true ->
  effective_user update = Some user -> effective_chat update = Some chat ->
  send_action_outcome env chat TYPING = None ->
  let h1 := history_of (user_histories w) (uid user) ++ [user_entry []] in
  let w' := snd (handle_message lower env update w) in
  (exists rest,
      trace w' = trace w ++ [message_log user txt; EvSendAction chat TYPING;
                             EvCreate (completion_request h1)] ++ rest) /\
  (exists h, user_histories w' !! uid user = Some h /\ user_entry [] ∈ h).
Proof.
  intros Hm Ht Hne Hblank Hu Hc Hs h1 w'. subst w'.
  pose proof (strip_blank txt Hblank) as Hstrip.
  assert (Hnc : is_crisis_message lower (Some (strip txt)) = false)
    by (by rewrite Hstrip).
  rewrite (handle_message_normal_eq lower env update msg txt user chat w
             Hm Ht Hne Hu Hc Hs Hnc).
  cbv zeta. rewrite Hstrip. fold h1.
  destruct (api_text (create_outcome env (completion_request h1))) as [e|c];
    cbn [snd user_histories trace]; rewrite lookup_insert_eq.
  - split; [eexists; cbn [app]; reflexivity|]. eexists. split; [reflexivity|].
    subst h1. apply elem_of_app. right. apply elem_of_cons. by left.
  - split; [eexists; cbn [app]; reflexivity|]. eexists. split; [reflexivity|].
    apply elem_of_cap_recent.
Qed.

(** ** What is sent to the completion service *)

(** X9.  When the store invariant holds, the one request
    [call_openai_chat] makes names the fixed model, 400 tokens and the
    temperature 0.7, and its messages are the system entry, then the
    earlier messages of the user, none of them a system entry, then the
    new user message last. *)
Theorem request_starts_with_system_prompt env u msg w :
  store_inv (user_histories w) ->
  exists t rest,
    history_of (user_histories w) u = SYSTEM_ENTRY :: t /\
    Forall (fun e => role e <> RoleSystem) t /\
    trace (snd (call_openai_chat env u msg w))
    = trace w ++
      EvCreate {| model := MODEL_ID;
                  messages := SYSTEM_ENTRY :: t ++ [user_entry msg];
                  max_tokens := 400; temperature := (7, 10)%Z |} :: rest /\
    existsb is_create rest = false.
Proof.
  intros Hinv.
  destruct (transcript_ok_history_of _ u Hinv) as (t & Ht & Hns).
  rewrite call_openai_chat_eq. cbv zeta. rewrite Ht.
  exists t. destruct (api_text _); cbn [snd trace]; eauto 10.
Qed.

(** X10.  A user message on which the service failed stays in the
    context: the next call sends it, right before the new user message,
    and after the answer the transcript holds both user messages in a
    row followed by the answer. *)
Theorem unanswered_message_stays_in_context env1 env2 u m1 m2 w e c :
  let h := history_of (user_histories w) u in
  api_text (create_outcome env1 (completion_request (h ++ [user_entry m1])))
  = inl e ->
  api_text (create_outcome env2
              (completion_request (h ++ [user_entry m1; user_entry m2])))
  = inr c ->
  let w1 := snd (call_openai_chat env1 u m1 w) in
  let w2 := snd (call_openai_chat env2 u m2 w1) in
  trace w2 = trace w ++
             [EvCreate (completion_request (h ++ [user_entry m1]));
              EvLogException OPENAI_ERROR_MSG e;
              EvCreate (completion_request (h ++ [user_entry m1; user_entry m2]))] /\
  user_histories w2 !! u
  = Some (cap (h ++ [user_entry m1; user_entry m2; assistant_entry (strip c)])).
Proof.
  intros h H1 H2 w1 w2. subst w1 w2.
  rewrite (call_openai_chat_eq env1). cbv zeta. fold h. rewrite H1.
  cbn [snd]. rewrite call_openai_chat_eq. cbv zeta.
  cbn [user_histories trace]. rewrite history_of_insert.
  rewrite <- !app_assoc. cbn [app]. rewrite H2.
  cbn [snd user_histories trace]. rewrite lookup_insert_eq, <- !app_assoc.
  done.
Qed.

Lemma length_cap_long (h : list Entry) :
  30 < length h -> length (cap h) = 29.
Proof.
  intros Hlt. unfold cap.
  replace (30 <? length h) with true by (symmetry; by apply Nat.ltb_lt).
  destruct h as [|a t]; cbn [length] in *; [lia|].
  rewrite length_slice_last. cbn [length]. lia.
Qed.

Lemma cap_short (h : list Entry) : length h <= 30 -> cap h = h.
Proof.
  intros Hle. unfold cap.
  by replace (30 <? length h) with false by (symmetry; apply Nat.ltb_ge; lia).
Qed.

(** X11.  After a call that the service answers, the transcript of the
    user has at most 30 entries, whatever its length before: exactly 29
    if it had 29 or more, and otherwise the old transcript with the two
    new entries. *)
Theorem answered_call_restores_limit env u msg w c :
  let h0 := history_of (user_histories w) u in
  api_text (create_outcome env (completion_request (h0 ++ [user_entry msg])))
  = inr c ->
  exists h,
    user_histories (snd (call_openai_chat env u msg w)) !! u = Some h /\
    length h <= 30 /\
    (29 <= length h0 -> length h = 29) /\
    (length h0 <= 28 -> h = h0 ++ [user_entry msg; assistant_entry (strip c)]).
Proof.
  intros h0 Hapi. rewrite call_openai_chat_eq. cbv zeta. fold h0. rewrite Hapi.
  cbn [snd user_histories]. rewrite lookup_insert_eq. eexists. split; [done|].
  split; [apply length_cap|].
  rewrite <- app_assoc. cbn [app].
  assert (Hlen : length (h0 ++ [user_entry msg; assistant_entry (strip c)])
                 = length h0 + 2) by (rewrite length_app; done).
  split.
  - intros Hge. apply length_cap_long. lia.
  - intros Hle. apply cap_short. lia.
Qed.

(** ** Trimming keeps whole exchanges *)

Lemma conversation_app xs ys :
  conversation (xs ++ ys) = conversation xs ++ conversation ys.
Proof. unfold conversation. apply flat_map_app. Qed.

Lemma drop_conversation k xs :
  drop (2 * k) (conversation xs) = conversation (drop k xs).
Proof.
  revert xs. induction k as [|k IH]; intros xs; [done|].
  destruct xs as [|[[t raw] env] xs]; [done|].
  replace (2 * S k) with (S (S (2 * k))) by lia.
  cbn [conversation flat_map app drop]. apply IH.
Qed.

Lemma slice_last_conversation xs :
  slice_last 28 (conversation xs) = conversation (slice_last 14 xs).
Proof.
  unfold slice_last. rewrite length_conversation.
  replace (2 * length xs - 28) with (2 * (length xs - 14)) by lia.
  apply drop_conversation.
Qed.

(** X12.  In a run of exchanges that succeed, trimming never separates a
    user message from its answer: the transcript is the system entry
    followed by the messages of the last 14 exchanges. *)
Theorem trimming_drops_whole_exchanges lower u (xs : list Exchange) w :
  Forall (exchange_ok lower) xs ->
  user_histories w !! u = None ->
  history_of (user_histories (run lower (map (exchange_step u) xs) w)) u
  = SYSTEM_ENTRY :: conversation (slice_last 14 xs).
Proof.
  intros Hok Hw.
  destruct (exchanges_history lower u xs w Hok Hw) as [-> _].
  by rewrite slice_last_conversation.
Qed.

(** ** One update, at most one reply *)

Lemma count_events_nil p : count_events p [] = 0.
Proof. done. Qed.

Ltac trace_cases :=
  cbn [fst snd user_histories trace after_typing];
  rewrite <- ?app_assoc; cbn [app];
  first [ eexists; split; [reflexivity|]
        | exists []; split; [by rewrite app_nil_r|] ];
  unfold start_log, message_log;
  cbn [count_events List.filter is_reply is_create length];
  repeat match goal with |- _ /\ _ => split end;
  intros; try done; try lia; try congruence.

(** X13.  Handling one update makes at most one reply and at most one
    call to the completion service; the three commands make no such
    call.  A command that returns normally on an update with a message
    has made exactly one reply, and so has the text handler when it
    returns normally on a message with a non-empty text. *)
Theorem one_reply_per_update lower i env update w :
  let r := dispatch lower i env update w in
  exists evs,
    trace (snd r) = trace w ++ evs /\
    count_events is_reply evs <= 1 /\
    count_events is_create evs <= 1 /\
    (i <> IText -> count_events is_create evs = 0) /\
    (fst r = Returned tt -> message update <> None -> i <> IText ->
     count_events is_reply evs = 1) /\
    (forall msg c txt,
        fst r = Returned tt -> message update = Some msg ->
        text msg = Some (c :: txt) -> i = IText ->
        count_events is_reply evs = 1).
Proof.
  intros r. subst r. destruct i; cbn [dispatch].
  - rewrite start_eq. destruct (effective_user update) as [user|];
      rewrite ?reply_if_message_eq; destruct (message update) as [msg|];
      trace_cases.
  - unfold help_command. rewrite reply_if_message_eq.
    destruct (message update) as [msg|]; trace_cases.
  - rewrite reset_command_eq. destruct (effective_user update) as [user|];
      rewrite ?reply_if_message_eq; destruct (message update) as [msg|];
      trace_cases.
  - destruct (message update) as [msg|] eqn:Hm.
    2:{ unfold handle_message. rewrite Hm. trace_cases. }
    destruct (text msg) as [[|c txt]|] eqn:Ht.
    2:{ destruct (effective_user update) as [user|] eqn:Hu.
        2:{ unfold handle_message. rewrite Hm, Ht, Hu. trace_cases. }
        destruct (effective_chat update) as [chat|] eqn:Hc.
        2:{ unfold handle_message. rewrite Hm, Ht, Hu, Hc.
            cbv [attr bind ret raise emit]. trace_cases. }
        rewrite (handle_message_eq lower env update msg (c :: txt) user chat w
                   Hm Ht ltac:(done) Hu Hc).
        destruct (send_action_outcome env chat TYPING); [trace_cases|].
        destruct (is_crisis_message lower (Some (strip (c :: txt)))).
        { rewrite reply_text_eq. trace_cases. }
        unfold bind. rewrite call_openai_chat_eq. cbv zeta.
        destruct (api_text _); rewrite reply_text_eq; trace_cases. }
    all: unfold handle_message; rewrite Hm, Ht; trace_cases.
Qed.

(** ** Logging, reset and start-up *)

(** X15.  Every non-empty text from a known user is written to the log,
    stripped, together with the user id, before anything else is done
    with it: also a crisis text, which is never stored, and also when
    the transport fails. *)
Theorem every_text_is_logged lower env update msg c txt user w :
  message update = Some msg -> text msg = Some (c :: txt) ->
  effective_user update = Some user ->
  exists rest,
    trace (snd (handle_message lower env update w))
    = trace w ++ message_log user (c :: txt) :: rest.
Proof.
  intros Hm Ht Hu.
  destruct (effective_chat update) as [chat|] eqn:Hc.
  - rewrite (handle_message_eq lower env update msg (c :: txt) user chat w
               Hm Ht ltac:(done) Hu Hc).
    destruct (send_action_outcome env chat TYPING); [by eexists|].
    destruct (is_crisis_message lower (Some (strip (c :: txt)))).
    + rewrite reply_text_eq. cbn [snd trace after_typing].
      rewrite <- app_assoc. by eexists.
    + unfold bind. rewrite call_openai_chat_eq. cbv zeta.
      destruct (api_text _); rewrite reply_text_eq;
        cbn [snd trace after_typing]; rewrite <- !app_assoc; by eexists.
  - unfold handle_message. rewrite Hm, Ht, Hu, Hc. by eexists.
Qed.

Lemma history_of_delete hs u : history_of (delete u hs) u = [SYSTEM_ENTRY].
Proof. unfold history_of. by rewrite lookup_delete_eq. Qed.

(** X16.  After [/reset], the next exchange that succeeds leaves a
    transcript of exactly three entries: the system entry, the user
    message and the answer, whatever the history was before. *)
Theorem reset_then_message_starts_fresh lower env update user (x : Exchange) w :
  effective_user update = Some user ->
  exchange_ok lower x ->
  user_histories
    (run lower [(IReset, env, update); exchange_step (uid user) x] w)
  !! uid user
  = Some [SYSTEM_ENTRY; user_entry (strip x.1.1); assistant_entry (strip x.1.2)].
Proof.
  intros Hu Hx. cbn [run fold_left].
  rewrite (exchange_step_store lower (uid user) x _ Hx).
  rewrite lookup_insert_eq. f_equal.
  unfold step at 1. cbn [dispatch]. rewrite reset_command_eq, Hu.
  rewrite reply_if_message_eq.
  destruct (message update); cbn [snd user_histories];
    by rewrite history_of_delete.
Qed.

(** X14.  The module starts only if both secrets are set and not empty.
    An unset or empty bot token gives the error about the bot token,
    whatever the API key; with a bot token, an unset or empty API key
    gives the error about the API key. *)
Theorem startup_needs_both_secrets (environ : gmap pystr pystr) :
  (forall t k,
      module_init environ = Configured t k <->
      environ !! BOT_TOKEN_VAR = Some t /\ t <> [] /\
      environ !! OPENAI_API_KEY_VAR = Some k /\ k <> []) /\
  (falsy (environ !! BOT_TOKEN_VAR) = true ->
   module_init environ = RuntimeError NO_BOT_TOKEN_MSG) /\
  (falsy (environ !! BOT_TOKEN_VAR) = false ->
   falsy (environ !! OPENAI_API_KEY_VAR) = true ->
   module_init environ = RuntimeError NO_OPENAI_API_KEY_MSG).
Proof.
  unfold module_init.
  destruct (environ !! BOT_TOKEN_VAR) as [[|a t0]|];
    destruct (environ !! OPENAI_API_KEY_VAR) as [[|b k0]|];
    cbn [falsy default]; (split; [|by split]);
    intros t k; split; try done; try (by intros (? & ? & ? & ?));
    try (by intros [= <- <-]).
  all: intros ([= <-] & ? & [= <-] & ?); done.
Qed.

(** ** The further properties at concrete inputs *)

Lemma reset_precedes_confirmation_witness :
  fst (reset_command (env_reply_fails NetworkError OK_RAW)
         (text_update 5 PLAIN_TEXT)
         (run lower_basic [(IText, env_ok OK_RAW, text_update 5 PLAIN_TEXT)]
            initial_world))
  = Raised (ExTelegram NetworkError) /\
  user_histories
    (snd (reset_command (env_reply_fails NetworkError OK_RAW)
            (text_update 5 PLAIN_TEXT)
            (run lower_basic [(IText, env_ok OK_RAW, text_update 5 PLAIN_TEXT)]
               initial_world)))
  = delete 5%Z
      (user_histories
         (run lower_basic [(IText, env_ok OK_RAW, text_update 5 PLAIN_TEXT)]
            initial_world)).
Proof.
  split; [reflexivity|].
  apply (reset_precedes_confirmation (env_reply_fails NetworkError OK_RAW)
           (text_update 5 PLAIN_TEXT) {| uid := 5; username := None |}).
  reflexivity.
Defined.

Lemma textless_update_dropped_witness :
  handle_message lower_basic (env_ok OK_RAW) (bare_update 3) initial_world
  = (Returned tt, initial_world).
Proof.
  apply (textless_update_dropped lower_basic (env_ok OK_RAW) (bare_update 3)
           initial_world).
  intros msg H. discriminate H.
Defined.

Lemma blank_message_reaches_service_witness :
  forallb isspace BLANK_TEXT = true /\
  exists h,
    user_histories
      (snd (handle_message lower_basic (env_ok OK_RAW)
              (text_update 1 BLANK_TEXT) initial_world)) !! 1%Z = Some h /\
    user_entry [] ∈ h.
Proof.
  split; [reflexivity|].
  apply (blank_message_reaches_service lower_basic (env_ok OK_RAW)
           (text_update 1 BLANK_TEXT)
           {| chat_id := 1; text := Some BLANK_TEXT |} BLANK_TEXT
           {| uid := 1; username := None |} 1%Z initial_world);
    first [reflexivity | discriminate].
Defined.

Lemma answered_message_recorded_before_reply_witness :
  fst (handle_message lower_basic (env_reply_fails NetworkError OK_RAW)
         (text_update 1 PLAIN_TEXT) initial_world)
  = Raised (ExTelegram NetworkError) /\
  user_histories
    (snd (handle_message lower_basic (env_reply_fails NetworkError OK_RAW)
            (text_update 1 PLAIN_TEXT) initial_world)) !! 1%Z
  = Some [SYSTEM_ENTRY; user_entry PLAIN_TEXT; assistant_entry (strip OK_RAW)].
Proof.
  split; [reflexivity|].
  apply (answered_message_recorded_before_reply lower_basic
           (env_reply_fails NetworkError OK_RAW) (text_update 1 PLAIN_TEXT)
           {| chat_id := 1; text := Some PLAIN_TEXT |} PLAIN_TEXT
           {| uid := 1; username := None |} 1%Z initial_world OK_RAW);
    first [reflexivity | discriminate].
Defined.

Lemma failed_completion_answers_fallback_witness :
  fst (handle_message lower_basic (env_api_fails AuthenticationError)
         (text_update 1 PLAIN_TEXT) initial_world)
  = Returned tt /\
  user_histories
    (snd (handle_message lower_basic (env_api_fails AuthenticationError)
            (text_update 1 PLAIN_TEXT) initial_world)) !! 1%Z
  = Some [SYSTEM_ENTRY; user_entry PLAIN_TEXT].
Proof.
  split; [reflexivity|].
  apply (failed_completion_answers_fallback lower_basic
           (env_api_fails AuthenticationError) (text_update 1 PLAIN_TEXT)
           {| chat_id := 1; text := Some PLAIN_TEXT |} PLAIN_TEXT
           {| uid := 1; username := None |} 1%Z initial_world
           (ExOpenAI AuthenticationError));
    first [reflexivity | discriminate].
Defined.

Lemma request_starts_with_system_prompt_witness :
  exists t rest,
    history_of (user_histories initial_world) 1%Z = SYSTEM_ENTRY :: t /\
    Forall (fun e => role e <> RoleSystem) t /\
    trace (snd (call_openai_chat (env_ok OK_RAW) 1%Z PLAIN_TEXT initial_world))
    = trace initial_world ++
      EvCreate {| model := MODEL_ID;
                  messages := SYSTEM_ENTRY :: t ++ [user_entry PLAIN_TEXT];
                  max_tokens := 400; temperature := (7, 10)%Z |} :: rest /\
    existsb is_create rest = false.
Proof.
  apply (request_starts_with_system_prompt (env_ok OK_RAW) 1%Z PLAIN_TEXT
           initial_world).
  intros u h H. vm_compute in H. discriminate H.
Defined.

Lemma unanswered_message_stays_in_context_witness :
  user_histories
    (snd (call_openai_chat (env_ok OK_RAW) 1%Z crisis_sample
            (snd (call_openai_chat (env_api_fails RateLimitError) 1%Z
                    PLAIN_TEXT initial_world)))) !! 1%Z
  = Some [SYSTEM_ENTRY; user_entry PLAIN_TEXT; user_entry crisis_sample;
          assistant_entry (strip OK_RAW)].
Proof.
  apply (unanswered_message_stays_in_context (env_api_fails RateLimitError)
           (env_ok OK_RAW) 1%Z PLAIN_TEXT crisis_sample initial_world
           (ExOpenAI RateLimitError) OK_RAW); reflexivity.
Defined.

Lemma answered_call_restores_limit_witness :
  exists h,
    user_histories
      (snd (call_openai_chat (env_ok OK_RAW) 1%Z PLAIN_TEXT
              (run lower_basic (outage_run 5) initial_world))) !! 1%Z = Some h /\
    length h <= 30 /\
    (29 <= length (history_of
                     (user_histories (run lower_basic (outage_run 5) initial_world))
                     1%Z) -> length h = 29) /\
    (length (history_of
               (user_histories (run lower_basic (outage_run 5) initial_world))
               1%Z) <= 28 ->
     h = history_of
           (user_histories (run lower_basic (outage_run 5) initial_world)) 1%Z
         ++ [user_entry PLAIN_TEXT; assistant_entry (strip OK_RAW)]).
Proof.
  apply (answered_call_restores_limit (env_ok OK_RAW) 1%Z PLAIN_TEXT
           (run lower_basic (outage_run 5) initial_world) OK_RAW).
  reflexivity.
Defined.

Lemma trimming_drops_whole_exchanges_witness :
  history_of
    (user_histories
       (run lower_basic
          (map (exchange_step 1)
             (replicate 16 (PLAIN_TEXT, OK_RAW, env_ok OK_RAW)))
          initial_world)) 1%Z
  = SYSTEM_ENTRY
    :: conversation (replicate 14 (PLAIN_TEXT, OK_RAW, env_ok OK_RAW)).
Proof.
  apply (trimming_drops_whole_exchanges lower_basic 1%Z
           (replicate 16 (PLAIN_TEXT, OK_RAW, env_ok OK_RAW)) initial_world).
  - apply Forall_replicate. unfold exchange_ok.
    split; [discriminate|]. split; [reflexivity|].
    split; [reflexivity|]. intros req. exists []. reflexivity.
  - reflexivity.
Defined.

Lemma every_text_is_logged_witness :
  exists rest,
    trace (snd (handle_message lower_basic (env_typing_fails TimedOut)
                  (text_update 7 crisis_sample) initial_world))
    = trace initial_world
      ++ message_log {| uid := 7; username := None |} crisis_sample :: rest.
Proof.
  assert (H : exists c txt, crisis_sample = c :: txt) by (by eexists _, _).
  destruct H as (c & txt & E). rewrite E.
  apply (every_text_is_logged lower_basic (env_typing_fails TimedOut)
           (text_update 7 (c :: txt))
           {| chat_id := 7; text := Some (c :: txt) |} c txt
           {| uid := 7; username := None |} initial_world); reflexivity.
Defined.

Lemma reset_then_message_starts_fresh_witness :
  user_histories
    (run lower_basic
       [(IReset, env_ok OK_RAW, text_update 1 PLAIN_TEXT);
        exchange_step 1 (PLAIN_TEXT, OK_RAW, env_ok OK_RAW)]
       (run lower_basic (outage_run 3) initial_world)) !! 1%Z
  = Some [SYSTEM_ENTRY; user_entry (strip PLAIN_TEXT);
          assistant_entry (strip OK_RAW)].
Proof.
  apply (reset_then_message_starts_fresh lower_basic (env_ok OK_RAW)
           (text_update 1 PLAIN_TEXT) {| uid := 1; username := None |}
           (PLAIN_TEXT, OK_RAW, env_ok OK_RAW)
           (run lower_basic (outage_run 3) initial_world)).
  - reflexivity.
  - unfold exchange_ok.
    split; [discriminate|]. split; [reflexivity|].
    split; [reflexivity|]. intros req. exists []. reflexivity.
Defined.

Lemma missing_user_raises_witness :
  handle_message lower_basic (env_ok OK_RAW) (anonymous_update 9 PLAIN_TEXT)
    initial_world
  = (Raised ExAttributeError, initial_world).
Proof.
  eapply (proj2 (proj2 (missing_user_raises lower_basic (env_ok OK_RAW)
                          (anonymous_update 9 PLAIN_TEXT) initial_world eq_refl))
            {| chat_id := 9; text := Some PLAIN_TEXT |});
    reflexivity.
Defined.
